(** * Triple-barrier labeling and signal generation

    A shallow embedding of [src/labeling.py] (function
    [apply_triple_barrier_for_symbol]), of the per-row decision logic of
    [src/signal_engine.py] (function [generate_signals]) and of the
    constants of [src/config.py].

    Python floats are IEEE binary64 numbers.  The engine is written over
    a small numeric interface [Num], the operations the source applies to
    floats, and run on Rocq's primitive binary64 floats: the arithmetic
    the program really performs, with rounding, NaN and infinities.
    Decimal literals are written as rationals and read as the nearest
    binary64 number. *)

From Stdlib Require Import ZArith QArith Bool List Lia String.
From Stdlib Require Import Floats Uint63.
Import ListNotations.

(** ** The numeric interface *)

Declare Scope num_scope.
Delimit Scope num_scope with num.

(** The operations the two source files apply to floats.  [py_int] is
    Python's [int(x)] (truncation toward zero); it has no result where
    Python raises (NaN, infinities). *)
Class Num (T : Type) : Type := {
  fadd : T -> T -> T;
  fsub : T -> T -> T;
  fmul : T -> T -> T;
  fdiv : T -> T -> T;
  flt : T -> T -> bool;
  fle : T -> T -> bool;
  feq : T -> T -> bool;
  isnan : T -> bool;
  of_int : Z -> T;
  lit : Q -> T;
  py_int : T -> option Z
}.

Notation "x + y" := (fadd x y) : num_scope.
Notation "x - y" := (fsub x y) : num_scope.
Notation "x * y" := (fmul x y) : num_scope.
Notation "x / y" := (fdiv x y) : num_scope.
Notation "x <? y" := (flt x y) : num_scope.
Notation "x <=? y" := (fle x y) : num_scope.
Notation "x >? y" := (flt y x) : num_scope.
Notation "x >=? y" := (fle y x) : num_scope.
Notation "x =? y" := (feq x y) : num_scope.

(** *** Binary64 *)

Module F64.

(** [float(z)] for a Python int within the 63-bit range. *)
Definition of_int (z : Z) : float :=
  if (z <? 0)%Z
  then PrimFloat.opp (PrimFloat.of_uint63 (Uint63.of_Z (- z)))
  else PrimFloat.of_uint63 (Uint63.of_Z z).

(** A decimal literal [n/d]: the binary64 number nearest to it, which
    the correctly rounded division of the two exactly represented
    integers yields. *)
Definition lit (q : Q) : float :=
  PrimFloat.div (of_int (Qnum q)) (of_int (Zpos (Qden q))).

(** [int(x)]: the integer part, from the sign, mantissa and exponent. *)
Definition py_int (x : float) : option Z :=
  match Prim2SF x with
  | S754_zero _ => Some 0%Z
  | S754_finite s m e =>
      let v := if (0 <=? e)%Z then (Zpos m * 2 ^ e)%Z
               else Z.shiftr (Zpos m) (- e) in
      Some (if s then (- v)%Z else v)
  | S754_infinity _ => None
  | S754_nan => None
  end.

End F64.

#[export] Instance float_Num : Num float := {|
  fadd := PrimFloat.add;
  fsub := PrimFloat.sub;
  fmul := PrimFloat.mul;
  fdiv := PrimFloat.div;
  flt := PrimFloat.ltb;
  fle := PrimFloat.leb;
  feq := PrimFloat.eqb;
  isnan := PrimFloat.is_nan;
  of_int := F64.of_int;
  lit := F64.lit;
  py_int := F64.py_int
|}.

(** ** Data model *)

(** A row of the feature frame: the columns the two functions read. *)
Record Bar (T : Type) : Type := mkBar {
  time : Z;
  symbol : string;
  close : T;
  high : T;
  low : T;
  atr : T;
  vol_ratio : T;
  trend_strength : T
}.

Arguments mkBar {T} _ _ _ _ _ _ _ _.
Arguments time {T} _.
Arguments symbol {T} _.
Arguments close {T} _.
Arguments high {T} _.
Arguments low {T} _.
Arguments atr {T} _.
Arguments vol_ratio {T} _.
Arguments trend_strength {T} _.

(** The second component of a hit: ["tp"] or ["sl"]. *)
Inductive kind : Type := TP | SL.

(** [hit_long] and [hit_short]: [None], or [(bar_idx, kind)]. *)
Definition hit : Type := option (nat * kind).

Inductive Direction : Type := LONG | SHORT | NONE.

Module Signal.
(** The signal dictionary built by [generate_signals]. *)
Record t (T : Type) : Type := mk {
  timestamp : Z;
  symbol : string;
  direction : Direction;
  confidence : T;
  prob_long : T;
  entry_price : T;
  tp_price : T;
  sl_price : T;
  atr : T;
  risk_reward_ratio : T
}.

Arguments mk {T} _ _ _ _ _ _ _ _ _ _.
Arguments timestamp {T} _.
Arguments symbol {T} _.
Arguments direction {T} _.
Arguments confidence {T} _.
Arguments prob_long {T} _.
Arguments entry_price {T} _.
Arguments tp_price {T} _.
Arguments sl_price {T} _.
Arguments atr {T} _.
Arguments risk_reward_ratio {T} _.
End Signal.

(** Sequencing of steps that may raise ([None]). *)
Definition bind {A B : Type} (m : option A) (f : A -> option B) : option B :=
  match m with
  | Some a => f a
  | None => None
  end.

Notation "x <- m ;; k" := (bind m (fun x => k))
  (at level 61, m at next level, right associativity).

(** [range(start, end_)]. *)
Definition range (start end_ : nat) : list nat := seq start (end_ - start).

Definition is_some {A : Type} (o : option A) : bool :=
  match o with
  | Some _ => true
  | None => false
  end.

Section Engine.

Context {T : Type} {N : Num T}.
Local Open Scope num_scope.

(** *** src/config.py *)

Definition TP_ATR_MULT : T := lit 1.8.
Definition SL_ATR_MULT : T := lit 1.0.
Definition MIN_HORIZON_DAYS : Z := 3.
Definition MAX_HORIZON_DAYS : Z := 10.
Definition CONFIDENCE_THRESHOLD : T := lit 0.7.

(** *** src/labeling.py, the body of the loop over [i] *)

(** Lines 71-72: a NaN regime value is replaced by its neutral default. *)
Definition current_vol_ratio (v : T) : T :=
  if negb (isnan v) then v else lit 1.0.

Definition current_trend (s : T) : T :=
  if negb (isnan s) then s else lit 0.0.

(** Lines 75-80. *)
Definition tp_mult (cur_trend cur_vol : T) : T :=
  if cur_trend >? of_int 30 then lit 2.5
  else if cur_vol <? lit 0.8 then lit 1.5
  else TP_ATR_MULT.

(** Line 83. *)
Definition sl_mult : T := SL_ATR_MULT.

(** Lines 86-91. *)
Definition tp_long (entry tpm a : T) : T := entry + tpm * a.
Definition sl_long (entry slm a : T) : T := entry - slm * a.
Definition tp_short (entry tpm a : T) : T := entry - tpm * a.
Definition sl_short (entry slm a : T) : T := entry + slm * a.

(** Lines 95-102. *)
Definition horizon (cur_vol : T) : option Z :=
  if cur_vol >? lit 1.5 then
    h <- py_int (of_int MAX_HORIZON_DAYS * lit 0.5) ;;
    Some (Z.max MIN_HORIZON_DAYS h)
  else if cur_vol >? lit 1.2 then
    h <- py_int (of_int MAX_HORIZON_DAYS * lit 0.7) ;;
    Some (Z.max MIN_HORIZON_DAYS h)
  else if cur_vol <? lit 0.8 then
    h <- py_int (of_int MAX_HORIZON_DAYS * lit 1.3) ;;
    Some (Z.min h 13)
  else Some MAX_HORIZON_DAYS.

(** [high[j]] and [low[j]]: a read past the end raises. *)
Definition col (f : Bar T -> T) (df : list (Bar T)) (j : nat) : option T :=
  option_map f (nth_error df j).

(** Lines 119-123. *)
Definition check_long (df : list (Bar T)) (tpl sll : T) (j : nat)
    (hit_long : hit) : option hit :=
  match hit_long with
  | Some _ => Some hit_long
  | None =>
      hj <- col high df j ;;
      if hj >=? tpl then Some (Some (j, TP))
      else
        lj <- col low df j ;;
        if lj <=? sll then Some (Some (j, SL)) else Some None
  end.

(** Lines 126-130. *)
Definition check_short (df : list (Bar T)) (tps sls : T) (j : nat)
    (hit_short : hit) : option hit :=
  match hit_short with
  | Some _ => Some hit_short
  | None =>
      lj <- col low df j ;;
      if lj <=? tps then Some (Some (j, TP))
      else
        hj <- col high df j ;;
        if hj >=? sls then Some (Some (j, SL)) else Some None
  end.

(** Lines 117-134: the loop over [j], with its [break]. *)
Fixpoint scan (df : list (Bar T)) (tpl sll tps sls : T) (js : list nat)
    (hit_long hit_short : hit) : option (hit * hit) :=
  match js with
  | [] => Some (hit_long, hit_short)
  | j :: js' =>
      hit_long' <- check_long df tpl sll j hit_long ;;
      hit_short' <- check_short df tps sls j hit_short ;;
      if is_some hit_long' && is_some hit_short'
      then Some (hit_long', hit_short')
      else scan df tpl sll tps sls js' hit_long' hit_short'
  end.

(** Lines 146 and 149. *)
Definition outcome (h : hit) : Z :=
  match h with
  | None => 0
  | Some (_, TP) => 1
  | Some (_, SL) => -1
  end.

(** Lines 137-157. *)
Definition resolve (hit_long hit_short : hit) : Z :=
  match hit_long, hit_short with
  | None, None => 0
  | _, _ =>
      let long_outcome := outcome hit_long in
      let short_outcome := outcome hit_short in
      if (long_outcome >? short_outcome)%Z then 1
      else if (short_outcome >? long_outcome)%Z then -1
      else 0
  end%Z.

(** Lines 105-106: [end = min(i + horizon + 1, n)]; a negative bound
    leaves [range(start, end)] empty, as does bound 0. *)
Definition window_end (i : nat) (h : Z) (n : nat) : nat :=
  Z.to_nat (Z.min (Z.of_nat i + h + 1) (Z.of_nat n)).

(** Line 63. *)
Definition atr_missing (a : T) : bool := isnan a || (a =? of_int 0).

(** Lines 62-157: [labels[i]]. *)
Definition label_at (df : list (Bar T)) (i : nat) : option Z :=
  b <- nth_error df i ;;
  if atr_missing (atr b) then Some 0%Z
  else
    let entry := close b in
    let cur_vol := current_vol_ratio (vol_ratio b) in
    let cur_trend := current_trend (trend_strength b) in
    let tpm := tp_mult cur_trend cur_vol in
    let slm := sl_mult in
    let tpl := tp_long entry tpm (atr b) in
    let sll := sl_long entry slm (atr b) in
    let tps := tp_short entry tpm (atr b) in
    let sls := sl_short entry slm (atr b) in
    h <- horizon cur_vol ;;
    let n := List.length df in
    let start := S i in
    let end_ := window_end i h n in
    if (n <=? start)%nat then Some 0%Z
    else
      hits <- scan df tpl sll tps sls (range start end_) None None ;;
      Some (resolve (fst hits) (snd hits)).

(** The loop over [i]: one label per row, or the exception raised on
    the way. *)
Fixpoint labels_from (df : list (Bar T)) (is_ : list nat) : option (list Z) :=
  match is_ with
  | [] => Some []
  | i :: rest =>
      l <- label_at df i ;;
      ls <- labels_from df rest ;;
      Some (l :: ls)
  end.

(** The [label] column for the frame of one symbol, its rows already in
    the order line 44 sorts them into (ascending [time]). *)
Definition apply_triple_barrier_for_symbol (df : list (Bar T))
    : option (list Z) :=
  labels_from df (range 0 (List.length df)).

(** *** src/signal_engine.py, the body of the loop over rows *)

(** Python's [max(a, b)] on two floats. *)
Definition py_max (a b : T) : T := if b >? a then b else a.

(** Lines 80-88. *)
Definition decide (prob confidence_threshold : T) : Direction * T :=
  if prob >=? confidence_threshold then (LONG, prob)
  else if prob <=? (of_int 1 - confidence_threshold)
       then (SHORT, of_int 1 - prob)
       else (NONE, py_max prob (of_int 1 - prob)).

(** Lines 100-105. *)
Definition levels (d : Direction) (c a : T) : T * T :=
  match d with
  | LONG => (c + TP_ATR_MULT * a, c - SL_ATR_MULT * a)
  | _ => (c - TP_ATR_MULT * a, c + SL_ATR_MULT * a)
  end.

(** Lines 79-121: the signal appended for one row, if any. *)
Definition signal_for_row (confidence_threshold : T) (row : Bar T)
    (prob : T) : option (Signal.t T) :=
  let (d, conf) := decide prob confidence_threshold in
  match d with
  | NONE => None
  | _ =>
      let c := close row in
      let a := atr row in
      if atr_missing a then None
      else
        let (tp, sl) := levels d c a in
        Some (Signal.mk (time row) (symbol row) d conf prob c tp sl a
                (TP_ATR_MULT / SL_ATR_MULT))
  end.

(** Lines 75-121 for the rows of one symbol, each with its predicted
    probability. *)
Fixpoint signals_for_rows (confidence_threshold : T)
    (rows : list (Bar T * T)) : list (Signal.t T) :=
  match rows with
  | [] => []
  | (row, prob) :: rest =>
      match signal_for_row confidence_threshold row prob with
      | Some s => s :: signals_for_rows confidence_threshold rest
      | None => signals_for_rows confidence_threshold rest
      end
  end.

(** Lines 54-135: the rows of every symbol in turn.  A group holds the
    rows of one symbol that remain after lines 57-64 (sorting by time,
    the optional [tail(1)] and [dropna] over the model's features), each
    paired with the probability the classifier returns for it at line
    72; loading the data, computing the features and the classifier are
    outside this engine. *)
Definition generate_signals (confidence_threshold : T)
    (groups : list (list (Bar T * T))) : list (Signal.t T) :=
  flat_map (signals_for_rows confidence_threshold) groups.

End Engine.

(** ** What the specification says, in its own words

    These definitions follow the specification's sentences, not the
    program; the theorems below compare them with the embedding above. *)

Module Spec.

(** Python's [round(x)]: the nearest integer, ties to the even one. *)
Definition py_round (x : float) : option Z :=
  match Prim2SF x with
  | S754_zero _ => Some 0%Z
  | S754_finite s m e =>
      let v :=
        if (0 <=? e)%Z then (Zpos m * 2 ^ e)%Z
        else
          let q := Z.shiftr (Zpos m) (- e) in
          let r := (Zpos m - Z.shiftl q (- e))%Z in
          let half := (2 ^ (- e - 1))%Z in
          if (half <? r)%Z then (q + 1)%Z
          else if (r =? half)%Z && Z.odd q then (q + 1)%Z
          else q in
      Some (if s then (- v)%Z else v)
  | S754_infinity _ => None
  | S754_nan => None
  end.

Section Selector.

Local Open Scope num_scope.

(** Section 4.1, take-profit multiple. *)
Definition take_profit_multiple (volatility_ratio trend : float) : float :=
  if trend >? of_int 30 then lit 2.5
  else if volatility_ratio <? lit 0.8 then lit 1.5
  else lit 1.8.

(** Section 4.1, stop-loss multiple. *)
Definition stop_loss_multiple : float := lit 1.0.

(** Section 4.1, horizon, with baseline [H] and floor [min_horizon]. *)
Definition select_horizon (H min_horizon : Z) (volatility_ratio : float)
    : option Z :=
  if volatility_ratio >? lit 1.5 then
    r <- py_round (of_int H * lit 0.5) ;; Some (Z.max min_horizon r)
  else if volatility_ratio >? lit 1.2 then
    r <- py_round (of_int H * lit 0.7) ;; Some (Z.max min_horizon r)
  else if volatility_ratio <? lit 0.8 then
    r <- py_round (of_int H * lit 1.3) ;; Some (Z.min r 13)
  else Some H.

End Selector.

Section Scanner.

Context {T : Type} {N : Num T}.
Local Open Scope num_scope.

(** Section 4.2: the barrier a bar touches for the long hypothesis,
    take-profit checked first. *)
Definition long_touch (tpl sll : T) (b : Bar T) : option kind :=
  if high b >=? tpl then Some TP
  else if low b <=? sll then Some SL
  else None.

(** Section 4.2: the same for the short hypothesis. *)
Definition short_touch (tps sls : T) (b : Bar T) : option kind :=
  if low b <=? tps then Some TP
  else if high b >=? sls then Some SL
  else None.

(** What bar [j] of the series touches. *)
Definition touch_at (touch : Bar T -> option kind) (df : list (Bar T))
    (j : nat) : option kind :=
  b <- nth_error df j ;; touch b.

(** [h] is the outcome of one hypothesis over the window [w]: the
    first bar of [w] that touches a barrier, with the barrier's kind,
    or no hit when no bar of [w] touches one. *)
Definition first_touch (touch : nat -> option kind) (w : list nat)
    (h : hit) : Prop :=
  match h with
  | None => forall j, In j w -> touch j = None
  | Some (j, k) =>
      In j w /\ touch j = Some k /\
      forall j', In j' w -> (j' < j)%nat -> touch j' = None
  end.

(** Section 4.3: the score of an outcome. *)
Definition score (h : hit) : Z :=
  match h with
  | Some (_, TP) => 1
  | Some (_, SL) => -1
  | None => 0
  end.

(** Section 4.3: the label from the two scores. *)
Definition label_of_scores (long_score short_score : Z) : Z :=
  if (short_score <? long_score)%Z then 1
  else if (long_score <? short_score)%Z then -1
  else 0.

End Scanner.

End Spec.

(** ** Derived views and concrete data *)

Section Views.

Context {T : Type} {N : Num T}.
Local Open Scope num_scope.

(** The parameters [labeling.py] selects for a bar's regime values. *)
Definition selected_parameters (vol trend : T) : option (T * T * Z) :=
  let cur_vol := current_vol_ratio vol in
  let cur_trend := current_trend trend in
  h <- horizon cur_vol ;;
  Some (tp_mult cur_trend cur_vol, sl_mult, h).

(** The window of bar [i] for horizon [h] in a series of [n] bars. *)
Definition window (i : nat) (h : Z) (n : nat) : list nat :=
  range (S i) (window_end i h n).



End Views.

Section Outcomes.

Context {T : Type} {N : Num T}.
Local Open Scope num_scope.

(** [h] unless it is [None], then [h']. *)
Definition or_else (h h' : hit) : hit :=
  match h with
  | Some _ => h
  | None => h'
  end.

Definition hit_of (j : nat) (k : option kind) : hit :=
  option_map (fun k => (j, k)) k.

(** The first index of [js], in list order, that touches a barrier. *)
Fixpoint find_touch (touch : nat -> option kind) (js : list nat) : hit :=
  match js with
  | [] => None
  | j :: js' => or_else (hit_of j (touch j)) (find_touch touch js')
  end.

(** The take-profit multiple line 75-80 selects for bar [b]. *)
Definition bar_tp_mult (b : Bar T) : T :=
  tp_mult (current_trend (trend_strength b)) (current_vol_ratio (vol_ratio b)).

(** What the bars of [df] touch for a long position entered at bar [b]. *)
Definition long_touch_of (df : list (Bar T)) (b : Bar T) : nat -> option kind :=
  Spec.touch_at
    (Spec.long_touch (tp_long (close b) (bar_tp_mult b) (atr b))
                     (sl_long (close b) sl_mult (atr b))) df.

(** The same for a short position entered at bar [b]. *)
Definition short_touch_of (df : list (Bar T)) (b : Bar T) : nat -> option kind :=
  Spec.touch_at
    (Spec.short_touch (tp_short (close b) (bar_tp_mult b) (atr b))
                      (sl_short (close b) sl_mult (atr b))) df.

End Outcomes.

Module Ex.

(** A EURUSD row from decimal columns. *)
Definition bar {T : Type} {N : Num T} (c h l a v s : Q) : Bar T :=
  mkBar 0 "EURUSD" (lit c) (lit h) (lit l) (lit a) (lit v) (lit s).

(** Entry 1.1000 with ATR 0.0050; the second bar after it reaches
    1.1095. *)
Definition rising : list (Bar float) :=
  [ bar 1.1 1.1 1.1 0.005 1 10;
    bar 1.1 1.105 1.099 0.005 1 10;
    bar 1.1 1.1095 1.1 0.005 1 10 ].

(** Three bars that never leave a narrow band. *)
Definition flat : list (Bar float) :=
  [ bar 1.1 1.101 1.099 0.005 1 10;
    bar 1.1 1.101 1.099 0.005 1 10;
    bar 1.1 1.101 1.099 0.005 1 10 ].

(** A bar whose range spans both long barriers of the bar before it. *)
Definition wide : list (Bar float) :=
  [ bar 1.1 1.1 1.1 0.005 1 10;
    bar 1.1 1.2 1.0 0.005 1 10 ].



Definition row : Bar float := bar 1.1 1.1 1.1 0.005 1 10.


End Ex.

(** ** The rest of the pipeline around the engine

    [features.py] (the volatility regime), the whole loop of
    [generate_signals] with its [tail] and [dropna], the grouping of
    [format_signals_report], [dataset.py] (targets and the time split)
    and the trading loop of [backtest.py]. *)

(** Unary minus on a float, which [backtest.py] line 96 applies. *)
Class NumNeg (T : Type) : Type := {
  fneg : T -> T
}.

#[export] Instance float_NumNeg : NumNeg float := {| fneg := PrimFloat.opp |}.

(** [s['direction'] == d]. *)
Definition direction_eqb (d1 d2 : Direction) : bool :=
  match d1, d2 with
  | LONG, LONG => true
  | SHORT, SHORT => true
  | NONE, NONE => true
  | _, _ => false
  end.

(** [DataFrame.tail(1)]: the last row, if there is one. *)
Definition tail1 {A : Type} (l : list A) : list A :=
  skipn (List.length l - 1) l.

Module Features.

Section F.

Context {T : Type} {N : Num T}.
Local Open Scope num_scope.

(** src/features.py lines 176-179: three assignments over the rows
    selected by a comparison, each overwriting the one before. *)
Definition vol_regime (v : T) : Z :=
  let r := 1%Z in
  let r := if v <? lit 0.8 then 0%Z else r in
  let r := if v >? lit 1.2 then 2%Z else r in
  if v >? lit 1.5 then 3%Z else r.

End F.

End Features.

Module Pipeline.

(** A row of the frame with the values of the classifier's feature
    columns ([symbol_df[feature_names]]). *)
Record FeatureRow (T : Type) : Type := mkFeatureRow {
  bar : Bar T;
  features : list T
}.

Arguments mkFeatureRow {T} _ _.
Arguments bar {T} _.
Arguments features {T} _.

Section P.

Context {T : Type} {N : Num T}.

(** The classifier: [model.predict_proba(X)[:, 1]] for one row of [X]. *)
Variable predict_proba : list T -> T.

(** [dropna(subset=feature_names)]: the rows none of whose feature
    values is missing. *)
Definition dropna (rows : list (FeatureRow T)) : list (FeatureRow T) :=
  filter (fun r => negb (existsb isnan (features r))) rows.

(** src/signal_engine.py lines 57-121, for the rows of one symbol in
    ascending time. *)
Definition symbol_signals (confidence_threshold : T) (use_latest_only : bool)
    (symbol_df : list (FeatureRow T)) : list (Signal.t T) :=
  let symbol_df := if use_latest_only then tail1 symbol_df else symbol_df in
  let symbol_df := dropna symbol_df in
  match symbol_df with
  | [] => []
  | _ =>
      signals_for_rows confidence_threshold
        (map (fun r => (bar r, predict_proba (features r))) symbol_df)
  end.

(** src/signal_engine.py lines 54-135, over the symbols in sorted
    order. *)
Definition generate_signals (confidence_threshold : T)
    (use_latest_only : bool) (groups : list (list (FeatureRow T)))
    : list (Signal.t T) :=
  flat_map (symbol_signals confidence_threshold use_latest_only) groups.

(** src/signal_engine.py lines 242-261: the value [get_latest_signals]
    returns. *)
Definition get_latest_signals (confidence_threshold : T)
    (groups : list (list (FeatureRow T))) : list (Signal.t T) :=
  generate_signals confidence_threshold true groups.

(** src/signal_engine.py lines 199-200. *)
Definition long_signals (signals : list (Signal.t T)) : list (Signal.t T) :=
  filter (fun s => direction_eqb (Signal.direction s) LONG) signals.

Definition short_signals (signals : list (Signal.t T)) : list (Signal.t T) :=
  filter (fun s => direction_eqb (Signal.direction s) SHORT) signals.

End P.

End Pipeline.

Module Dataset.

(** A row of the labeled frame: its time, its label and the values of
    its feature columns. *)
Record Row (T : Type) : Type := mkRow {
  time : Z;
  label : Z;
  features : list T
}.

Arguments mkRow {T} _ _ _.
Arguments time {T} _.
Arguments label {T} _.
Arguments features {T} _.

Section D.

Context {T : Type} {N : Num T}.

(** src/dataset.py lines 58-77: the rows kept, each with its [target]. *)
Definition prepare_ml_dataset (drop_neutral drop_na : bool)
    (df : list (Row T)) : list (Row T * Z) :=
  let df := if drop_neutral
            then filter (fun r => negb (label r =? 0)%Z) df
            else df in
  let df := map (fun r => (r, if (label r =? 1)%Z then 1%Z else 0%Z)) df in
  if drop_na
  then filter (fun rt => negb (existsb isnan (features (fst rt)))) df
  else df.

(** [Series.max()] and [Series.min()] of a time column: [None] is the
    missing time of an empty column. *)
Definition time_max (ts : list Z) : option Z :=
  match ts with
  | [] => None
  | t :: ts' => Some (fold_left Z.max ts' t)
  end.

Definition time_min (ts : list Z) : option Z :=
  match ts with
  | [] => None
  | t :: ts' => Some (fold_left Z.min ts' t)
  end.

(** [a < b] on two times: false as soon as one is missing. *)
Definition time_lt (a b : option Z) : bool :=
  match a, b with
  | Some x, Some y => (x <? y)%Z
  | _, _ => false
  end.

(** src/dataset.py lines 105-120, on the rows in ascending time: the
    three frames, or [None] when one of the two assertions fails. *)
Definition split_train_val_test {A : Type} (time_of : A -> Z) (df : list A)
    (val_start test_start : Z) : option (list A * list A * list A) :=
  let train_df := filter (fun r => (time_of r <? val_start)%Z) df in
  let val_df :=
    filter (fun r => (val_start <=? time_of r)%Z && (time_of r <? test_start)%Z)
      df in
  let test_df := filter (fun r => (test_start <=? time_of r)%Z) df in
  if negb (time_lt (time_max (map time_of train_df))
                   (time_min (map time_of val_df)))
  then None
  else if negb (time_lt (time_max (map time_of val_df))
                        (time_min (map time_of test_df)))
  then None
  else Some (train_df, val_df, test_df).

End D.

End Dataset.

Module Backtest.

(** A row of the labeled frame as [run_backtest] reads it. *)
Record Row : Type := mkRow {
  time : Z;
  symbol : string;
  label : Z
}.

(** A trade dictionary of lines 102-112. *)
Record Trade (T : Type) : Type := mkTrade {
  t_time : Z;
  t_symbol : string;
  t_signal : Direction;
  t_prob : T;
  t_label : Z;
  t_win : bool;
  t_risk : T;
  t_pnl : T;
  t_equity : T
}.

Arguments mkTrade {T} _ _ _ _ _ _ _ _ _.
Arguments t_time {T} _.
Arguments t_symbol {T} _.
Arguments t_signal {T} _.
Arguments t_prob {T} _.
Arguments t_label {T} _.
Arguments t_win {T} _.
Arguments t_risk {T} _.
Arguments t_pnl {T} _.
Arguments t_equity {T} _.

Section B.

Context {T : Type} {N : Num T} {NN : NumNeg T}.
Local Open Scope num_scope.

(** Lines 61-63: 0, then 1 where [prob >= threshold], then -1 where
    [prob <= 1 - threshold]. *)
Definition signal_of (prob confidence_threshold : T) : Z :=
  let s := 0%Z in
  let s := if prob >=? confidence_threshold then 1%Z else s in
  if prob <=? (of_int 1 - confidence_threshold) then (-1)%Z else s.

(** Lines 70-112: the loop, threading [equity], [trades] and
    [equity_curve]. *)
Fixpoint trade_loop (confidence_threshold risk_per_trade : T)
    (rows : list (Row * T)) (equity : T) (trades : list (Trade T))
    (equity_curve : list T) : list (Trade T) * list T :=
  match rows with
  | [] => (trades, equity_curve)
  | (row, prob) :: rest =>
      let signal := signal_of prob confidence_threshold in
      if (signal =? 0)%Z
      then trade_loop confidence_threshold risk_per_trade rest equity trades
             (equity_curve ++ [equity])
      else
        let win := if (signal =? 1)%Z then (label row =? 1)%Z
                   else (label row =? -1)%Z in
        let risk_amount := equity * risk_per_trade in
        let pnl := if win then risk_amount * lit 1.8 else fneg risk_amount in
        let equity := equity + pnl in
        trade_loop confidence_threshold risk_per_trade rest equity
          (trades ++
           [mkTrade (time row) (symbol row)
              (if (signal =? 1)%Z then LONG else SHORT)
              prob (label row) win risk_amount pnl equity])
          (equity_curve ++ [equity])
  end.

(** Lines 53-115: the trades and the equity curve for the rows in
    ascending time, each with the classifier's probability. *)
Definition run_backtest (rows : list (Row * T))
    (confidence_threshold risk_per_trade initial_capital : T)
    : list (Trade T) * list T :=
  trade_loop confidence_threshold risk_per_trade rows initial_capital []
    [initial_capital].

End B.

End Backtest.

Module BacktestView.

Section V.

Context {T : Type} {N : Num T}.
Local Open Scope num_scope.

(** The trades compound: each one risks [risk_per_trade] of the equity
    the trade before it left (the first one of [equity]) and leaves that
    equity plus its profit or loss. *)
Fixpoint compounds (risk_per_trade equity : T)
    (trades : list (Backtest.Trade T)) : Prop :=
  match trades with
  | [] => True
  | tr :: rest =>
      Backtest.t_risk tr = equity * risk_per_trade /\
      Backtest.t_equity tr = equity + Backtest.t_pnl tr /\
      compounds risk_per_trade (Backtest.t_equity tr) rest
  end.

(** The number [run_backtest] stores for a direction in [signals]. *)
Definition direction_code (d : Direction) : Z :=
  match d with
  | LONG => 1
  | SHORT => -1
  | NONE => 0
  end.

End V.

End BacktestView.

(** ** Values of binary64 numbers

    For the facts about rounding a finite binary64 number [m * 2^e] is
    read as the integer [m * 2^(e + 2148)]: the exponents the operations
    meet are at least -2148, twice the least exponent -1074. *)

Section RoundingDefs.

Local Open Scope Z_scope.

(** The value of [m * 2^e], scaled by [2^2148]. *)
Definition sf_value (m e : Z) : Z := m * 2 ^ (e + 2148).

(** Round to nearest, ties to even, of [V / G]. *)
Definition rne (V G : Z) : Z :=
  V / G + (if (G <? 2 * (V mod G)) || ((G =? 2 * (V mod G)) && Z.odd (V / G))
           then 1 else 0).

(** The state of the shifter after [k] shifts of [M]: the quotient, the
    last bit shifted out and whether any bit before it was set. *)
Definition shr_state (M : Z) (k : Z) (mrs : shr_record) : Prop :=
  shr_m mrs = M / 2 ^ k /\
  shr_r mrs = (0 <? k) && Z.odd (M / 2 ^ (k - 1)) /\
  shr_s mrs = (0 <? k) && negb (M mod 2 ^ (k - 1) =? 0).

(** What [binary_round_aux] returns for the rounded mantissa [m2] at the
    exponent [e0]: a mantissa of 54 bits is renormalised, and an exponent
    above 971 overflows. *)
Definition round_result (m2 e0 : Z) : spec_float :=
  match m2 with
  | Zpos p =>
      if m2 <? 2 ^ 53
      then (if e0 <=? 971 then S754_finite false p e0 else S754_infinity false)
      else (if e0 + 1 <=? 971
            then S754_finite false 4503599627370496 (e0 + 1)
            else S754_infinity false)
  | _ => S754_zero false
  end.

(** The binary64 number the scaled value [V] rounds to. *)
Definition round_value (V : Z) : spec_float :=
  let e0 := fexp prec emax (Zdigits2 V - 2148) in
  round_result (rne V (2 ^ (e0 + 2148))) e0.

(** The least positive binary64 number, 1 and 0.5. *)
Definition sf_min : spec_float := S754_finite false 1 (-1074).

Definition sf_one : spec_float := S754_finite false 4503599627370496 (-52).

Definition sf_half : spec_float := S754_finite false 4503599627370496 (-53).

End RoundingDefs.

(** ** Binary64 comparisons

    Facts about IEEE comparisons, from the specification of the primitive
    operations: a NaN compares false with everything, and two numbers
    that are not NaN are comparable. *)

Lemma SFcompare_refl (s : spec_float) :
  s <> S754_nan -> SFcompare s s = Some Eq.
Proof.
  destruct s as [b | b | | b m e]; simpl; intros Hs.
  - reflexivity.
  - destruct b; reflexivity.
  - congruence.
  - rewrite Z.compare_refl.
    change (PosDef.Pos.compare_cont Eq m m) with (Pos.compare m m).
    rewrite Pos.compare_refl. destruct b; reflexivity.
Qed.

Lemma is_nan_Prim2SF (x : float) :
  PrimFloat.is_nan x = true <-> Prim2SF x = S754_nan.
Proof.
  unfold PrimFloat.is_nan. rewrite FloatAxioms.eqb_spec. unfold SFeqb. split.
  - intros H. destruct (Prim2SF x) eqn:E; try reflexivity;
      rewrite SFcompare_refl in H by discriminate; discriminate.
  - intros ->. reflexivity.
Qed.

Lemma SFcompare_nan_r (s : spec_float) : SFcompare s S754_nan = None.
Proof. destruct s; reflexivity. Qed.

Lemma ltb_nan_l (x y : float) :
  PrimFloat.is_nan x = true -> PrimFloat.ltb x y = false.
Proof.
  intros H. apply is_nan_Prim2SF in H.
  rewrite FloatAxioms.ltb_spec, H. reflexivity.
Qed.

Lemma ltb_nan_r (x y : float) :
  PrimFloat.is_nan y = true -> PrimFloat.ltb x y = false.
Proof.
  intros H. apply is_nan_Prim2SF in H.
  rewrite FloatAxioms.ltb_spec, H. unfold SFltb. rewrite SFcompare_nan_r. reflexivity.
Qed.

Lemma leb_nan_l (x y : float) :
  PrimFloat.is_nan x = true -> PrimFloat.leb x y = false.
Proof.
  intros H. apply is_nan_Prim2SF in H.
  rewrite FloatAxioms.leb_spec, H. reflexivity.
Qed.

Lemma leb_nan_r (x y : float) :
  PrimFloat.is_nan y = true -> PrimFloat.leb x y = false.
Proof.
  intros H. apply is_nan_Prim2SF in H.
  rewrite FloatAxioms.leb_spec, H. unfold SFleb. rewrite SFcompare_nan_r. reflexivity.
Qed.

Lemma SFcompare_antisym (s1 s2 : spec_float) (c : comparison) :
  SFcompare s1 s2 = Some c -> SFcompare s2 s1 = Some (CompOpp c).
Proof.
  destruct s1 as [b1 | b1 | | b1 m1 e1], s2 as [b2 | b2 | | b2 m2 e2];
    simpl; try discriminate; intros H; injection H as <-;
    try (destruct b1; reflexivity); try (destruct b2; reflexivity);
    try (destruct b1, b2; reflexivity).
  change (PosDef.Pos.compare_cont Eq m1 m2) with (Pos.compare m1 m2).
  change (PosDef.Pos.compare_cont Eq m2 m1) with (Pos.compare m2 m1).
  rewrite (Z.compare_antisym e1 e2), (Pos.compare_antisym m1 m2).
  destruct b1, b2; try reflexivity;
    destruct (e1 ?= e2)%Z; simpl; try reflexivity;
    destruct (m1 ?= m2)%positive; reflexivity.
Qed.

Lemma SFcompare_total (s1 s2 : spec_float) :
  s1 <> S754_nan -> s2 <> S754_nan -> exists c, SFcompare s1 s2 = Some c.
Proof.
  destruct s1, s2; simpl; intros H1 H2; try congruence; eexists; reflexivity.
Qed.

(** Two floats that are not NaN are ordered one way or the other. *)
Lemma leb_total (x y : float) :
  PrimFloat.is_nan x = false -> PrimFloat.is_nan y = false ->
  PrimFloat.leb x y = true \/ PrimFloat.leb y x = true.
Proof.
  intros Hx Hy.
  assert (Nx : Prim2SF x <> S754_nan).
  { intros E. apply is_nan_Prim2SF in E. congruence. }
  assert (Ny : Prim2SF y <> S754_nan).
  { intros E. apply is_nan_Prim2SF in E. congruence. }
  destruct (SFcompare_total _ _ Nx Ny) as [c Hc].
  pose proof (SFcompare_antisym _ _ _ Hc) as Hc'.
  rewrite !FloatAxioms.leb_spec. unfold SFleb. rewrite Hc, Hc'.
  destruct c; simpl; auto.
Qed.

(** ** The order of binary64 numbers is transitive *)

Lemma pos_compare_cont_eq (m1 m2 : positive) :
  PosDef.Pos.compare_cont Eq m1 m2 = Pos.compare m1 m2.
Proof. reflexivity. Qed.

Ltac cmp_cases :=
  repeat match goal with
  | H : context [Z.compare ?a ?b] |- _ =>
      destruct (Z.compare_spec a b); simpl in H; try discriminate H
  | H : context [Pos.compare ?a ?b] |- _ =>
      destruct (Pos.compare_spec a b); simpl in H; try discriminate H
  | |- context [Z.compare ?a ?b] =>
      destruct (Z.compare_spec a b); simpl
  | |- context [Pos.compare ?a ?b] =>
      destruct (Pos.compare_spec a b); simpl
  end.

Lemma SFcompare_trans (x y z : spec_float) (c1 c2 : comparison) :
  SFcompare x y = Some c1 -> SFcompare y z = Some c2 ->
  c1 <> Gt -> c2 <> Gt ->
  SFcompare x z = Some (match c1, c2 with Eq, Eq => Eq | _, _ => Lt end).
Proof.
  intros H1 H2 N1 N2.
  destruct c1, c2; try congruence; clear N1 N2;
  destruct x as [sx | sx | | sx mx ex], y as [sy | sy | | sy my ey],
    z as [sz | sz | | sz mz ez]; simpl in *; try discriminate;
    try (destruct sx); try (destruct sy); try (destruct sz);
    simpl in *; try discriminate; try reflexivity;
    rewrite ?pos_compare_cont_eq in *; cmp_cases; subst;
    try discriminate; try reflexivity; try lia.
Qed.

Lemma ltb_SFcompare (x y : float) :
  PrimFloat.ltb x y = true <-> SFcompare (Prim2SF x) (Prim2SF y) = Some Lt.
Proof.
  rewrite FloatAxioms.ltb_spec. unfold SFltb.
  destruct (SFcompare (Prim2SF x) (Prim2SF y)) as [[| |] |];
    split; congruence.
Qed.

Lemma leb_SFcompare (x y : float) :
  PrimFloat.leb x y = true <->
  exists c, SFcompare (Prim2SF x) (Prim2SF y) = Some c /\ c <> Gt.
Proof.
  rewrite FloatAxioms.leb_spec. unfold SFleb.
  destruct (SFcompare (Prim2SF x) (Prim2SF y)) as [[| |] |]; split;
    try discriminate; try (intros _; eexists; split; [reflexivity | discriminate]);
    try reflexivity; intros (c & H & Hc); congruence.
Qed.

(** [x < y <= z] gives [x < z]. *)
Lemma ltb_leb_trans (x y z : float) :
  PrimFloat.ltb x y = true -> PrimFloat.leb y z = true ->
  PrimFloat.ltb x z = true.
Proof.
  intros H1 H2. apply ltb_SFcompare in H1. apply leb_SFcompare in H2.
  destruct H2 as (c & H2 & Hc). apply ltb_SFcompare.
  rewrite (SFcompare_trans _ _ _ _ _ H1 H2); [| discriminate | exact Hc].
  destruct c; reflexivity.
Qed.

(** [x <= y < z] gives [x < z]. *)
Lemma leb_ltb_trans (x y z : float) :
  PrimFloat.leb x y = true -> PrimFloat.ltb y z = true ->
  PrimFloat.ltb x z = true.
Proof.
  intros H1 H2. apply leb_SFcompare in H1. apply ltb_SFcompare in H2.
  destruct H1 as (c & H1 & Hc). apply ltb_SFcompare.
  rewrite (SFcompare_trans _ _ _ _ _ H1 H2); [| exact Hc | discriminate].
  destruct c; reflexivity.
Qed.

(** [x <= y <= z] gives [x <= z]. *)
Lemma leb_trans (x y z : float) :
  PrimFloat.leb x y = true -> PrimFloat.leb y z = true ->
  PrimFloat.leb x z = true.
Proof.
  intros H1 H2. apply leb_SFcompare in H1. apply leb_SFcompare in H2.
  destruct H1 as (c1 & H1 & Hc1). destruct H2 as (c2 & H2 & Hc2).
  apply leb_SFcompare.
  rewrite (SFcompare_trans _ _ _ _ _ H1 H2 Hc1 Hc2).
  eexists. split; [reflexivity |]. destruct c1, c2; discriminate.
Qed.

Lemma ltb_leb (x y : float) :
  PrimFloat.ltb x y = true -> PrimFloat.leb x y = true.
Proof.
  rewrite FloatAxioms.ltb_spec, FloatAxioms.leb_spec. unfold SFltb, SFleb.
  destruct (SFcompare (Prim2SF x) (Prim2SF y)) as [[| |] |];
    congruence.
Qed.

Lemma ltb_not_leb (x y : float) :
  PrimFloat.ltb x y = true -> PrimFloat.leb y x = false.
Proof.
  intros H. apply ltb_SFcompare in H.
  apply SFcompare_antisym in H.
  rewrite FloatAxioms.leb_spec. unfold SFleb. rewrite H. reflexivity.
Qed.

Lemma leb_not_nan (x y : float) :
  PrimFloat.leb x y = true ->
  PrimFloat.is_nan x = false /\ PrimFloat.is_nan y = false.
Proof.
  intros H. split; apply not_true_is_false; intros E.
  - rewrite (leb_nan_l x y E) in H. discriminate H.
  - rewrite (leb_nan_r x y E) in H. discriminate H.
Qed.

(** ** Rounding in binary64

    The operations of [SpecFloat] round a mantissa by shifting it right
    and looking at the bits shifted out.  What the claims need is that
    the rounded result stays on the same side of every binary64 number
    as the exact value, and is the exact value when that is a binary64
    number. *)

Section RoundingFacts.

Local Open Scope Z_scope.

Lemma digits2_pos_bounds (p : positive) :
  2 ^ (Zpos (digits2_pos p) - 1) <= Zpos p < 2 ^ Zpos (digits2_pos p).
Proof.
  induction p as [p IH | p IH |]; simpl digits2_pos.
  - rewrite Pos2Z.inj_succ.
    replace (Z.succ (Zpos (digits2_pos p)) - 1) with (Z.succ (Zpos (digits2_pos p) - 1)) by lia.
    rewrite !Z.pow_succ_r by lia. lia.
  - rewrite Pos2Z.inj_succ.
    replace (Z.succ (Zpos (digits2_pos p)) - 1) with (Z.succ (Zpos (digits2_pos p) - 1)) by lia.
    rewrite !Z.pow_succ_r by lia. lia.
  - simpl. lia.
Qed.

Lemma pow2_lt_inv (a b : Z) : 0 <= b -> 2 ^ a < 2 ^ b -> a < b.
Proof.
  intros Hb H. destruct (Z_lt_ge_dec a b) as [L | G]; [exact L |].
  assert (2 ^ b <= 2 ^ a) by (apply Z.pow_le_mono_r; lia). lia.
Qed.

Lemma digits2_pos_unique (p : positive) (d : Z) :
  2 ^ (d - 1) <= Zpos p < 2 ^ d -> Zpos (digits2_pos p) = d.
Proof.
  intros [H1 H2]. pose proof (digits2_pos_bounds p) as [B1 B2].
  assert (0 < d).
  { destruct (Z_lt_ge_dec 0 d) as [L|G]; [exact L|].
    destruct (Z.eq_dec d 0) as [->|]; [simpl in H2; lia|].
    rewrite Z.pow_neg_r in H2 by lia. lia. }
  assert (d - 1 < Zpos (digits2_pos p)).
  { apply pow2_lt_inv; lia. }
  assert (Zpos (digits2_pos p) - 1 < d).
  { apply pow2_lt_inv; lia. }
  lia.
Qed.

Lemma fexp64_eq (x : Z) : fexp prec emax x = Z.max (x - 53) (-1074).
Proof. reflexivity. Qed.

Lemma bounded_inv (m : positive) (e : Z) :
  bounded prec emax m e = true ->
  e = Z.max (Zpos (digits2_pos m) + e - 53) (-1074) /\ e <= 971.
Proof.
  unfold bounded, canonical_mantissa. intros H.
  apply andb_true_iff in H. destruct H as [H1 H2].
  apply Z.eqb_eq in H1. apply Z.leb_le in H2.
  rewrite fexp64_eq in H1. split; [symmetry; exact H1 | exact H2].
Qed.

Lemma iter_pos_inv {A : Type} (f : A -> A) (I : Z -> A -> Prop) :
  (forall k x, 0 <= k -> I k x -> I (k + 1) (f x)) ->
  forall (p : positive) (k : Z) (x : A),
    0 <= k -> I k x -> I (k + Zpos p) (iter_pos f p x).
Proof.
  intros Hstep. induction p as [p IH | p IH |]; intros k x Hk Hx; simpl.
  - replace (k + Zpos p~1) with (k + 1 + Zpos p + Zpos p) by lia.
    apply IH; [lia |]. apply IH; [lia |]. apply Hstep; assumption.
  - replace (k + Zpos p~0) with (k + Zpos p + Zpos p) by lia.
    apply IH; [lia |]. apply IH; assumption.
  - apply Hstep; assumption.
Qed.

Lemma shr_1_eq (m : Z) (r s : bool) :
  0 <= m ->
  shr_1 (Build_shr_record m r s) = Build_shr_record (m / 2) (Z.odd m) (r || s).
Proof.
  intros Hm. destruct m as [| p | p]; [reflexivity | | lia].
  destruct p as [p | p |]; unfold shr_1.
  - replace (Z.pos p~1 / 2) with (Zpos p);
      [reflexivity | apply Z.div_unique with (r := 1); lia].
  - replace (Z.pos p~0 / 2) with (Zpos p);
      [reflexivity | apply Z.div_unique with (r := 0); lia].
  - reflexivity.
Qed.

Lemma mod_pow2_succ (M k : Z) :
  0 <= k ->
  M mod 2 ^ (k + 1) = M mod 2 ^ k + (if Z.odd (M / 2 ^ k) then 2 ^ k else 0).
Proof.
  intros Hk. rewrite Z.pow_add_r by lia. change (2 ^ 1) with 2.
  assert (Hp : 0 < 2 ^ k) by (apply Z.pow_pos_nonneg; lia).
  rewrite Z.rem_mul_r by lia.
  rewrite (Zmod_odd (M / 2 ^ k)).
  destruct (Z.odd (M / 2 ^ k)); lia.
Qed.

Lemma shr_state_step (M : Z) (k : Z) (mrs : shr_record) :
  0 <= M -> 0 <= k -> shr_state M k mrs -> shr_state M (k + 1) (shr_1 mrs).
Proof.
  intros HM Hk (Hm & Hr & Hs). destruct mrs as [m r s]. simpl in Hm, Hr, Hs.
  assert (Hpos : 0 < 2 ^ k) by (apply Z.pow_pos_nonneg; lia).
  assert (Hm0 : 0 <= m) by (subst m; apply Z.div_pos; lia).
  rewrite shr_1_eq by exact Hm0. unfold shr_state. simpl.
  replace (k + 1 - 1) with k by lia.
  assert (E1 : (0 <? k + 1) = true) by (apply Z.ltb_lt; lia).
  rewrite E1. simpl. split; [| split].
  - subst m. rewrite Z.pow_add_r by lia. change (2 ^ 1) with 2.
    rewrite Z.div_div by lia. reflexivity.
  - subst m. reflexivity.
  - subst r s. destruct (Z.ltb_spec 0 k) as [Hk1 | Hk0]; simpl.
    + pose proof (mod_pow2_succ M (k - 1) ltac:(lia)) as Hmod.
      replace (k - 1 + 1) with k in Hmod by lia.
      assert (Hp1 : 0 < 2 ^ (k - 1)) by (apply Z.pow_pos_nonneg; lia).
      pose proof (Z.mod_pos_bound M (2 ^ (k - 1)) Hp1) as Hb.
      rewrite Hmod.
      destruct (Z.odd (M / 2 ^ (k - 1))); simpl.
      * symmetry. apply negb_true_iff. apply Z.eqb_neq. lia.
      * rewrite Z.add_0_r. reflexivity.
    + assert (k = 0) as -> by lia. simpl. rewrite Z.mod_1_r. reflexivity.
Qed.

Lemma shr_state_loc (M : Z) (n : Z) (mrs : shr_record) :
  0 <= M -> 0 <= n -> shr_state M n mrs ->
  round_nearest_even (shr_m mrs) (loc_of_shr_record mrs) = rne M (2 ^ n).
Proof.
  intros HM Hn (Hm & Hr & Hs). destruct mrs as [m r s].
  cbn [shr_m shr_r shr_s] in Hm, Hr, Hs.
  unfold rne. cbn [shr_m]. rewrite <- Hm.
  destruct (Z.ltb_spec 0 n) as [Hn1 | Hn0]; cbn [andb] in Hr, Hs.
  - pose proof (mod_pow2_succ M (n - 1) ltac:(lia)) as Hmod.
    replace (n - 1 + 1) with n in Hmod by lia.
    assert (Hp1 : 0 < 2 ^ (n - 1)) by (apply Z.pow_pos_nonneg; lia).
    pose proof (Z.mod_pos_bound M (2 ^ (n - 1)) Hp1) as Hb.
    assert (Hpn : 2 ^ n = 2 * 2 ^ (n - 1)).
    { replace n with (n - 1 + 1) at 1 by lia.
      rewrite Z.pow_add_r by lia. change (2 ^ 1) with 2. lia. }
    rewrite Hmod, Hpn. subst r s.
    set (h := 2 ^ (n - 1)) in *. set (a := M mod h) in *.
    clearbody h a.
    destruct (Z.odd (M / h)); cbn [loc_of_shr_record];
      destruct (Z.eqb_spec a 0) as [E0 | E0]; cbn [negb loc_of_shr_record];
      destruct (Z.ltb_spec (2 * h) (2 * (a + (if true then h else 0))));
      destruct (Z.ltb_spec (2 * h) (2 * (a + (if false then h else 0))));
      destruct (Z.eqb_spec (2 * h) (2 * (a + (if true then h else 0))));
      destruct (Z.eqb_spec (2 * h) (2 * (a + (if false then h else 0))));
      cbn [orb andb round_nearest_even]; try lia;
      rewrite <- ?Z.negb_even; destruct (Z.even m); cbn [negb]; lia.
  - assert (n = 0) as -> by lia. subst r s.
    cbn [loc_of_shr_record round_nearest_even].
    change (2 ^ 0) with 1. rewrite Z.mod_1_r.
    change (1 <? 2 * 0) with false. change (1 =? 2 * 0) with false.
    cbn [orb andb]. lia.
Qed.

Lemma shr_state_iter (M : Z) (p : positive) :
  0 <= M ->
  shr_state M (Zpos p) (iter_pos shr_1 p (Build_shr_record M false false)).
Proof.
  intros HM.
  assert (H : shr_state M (0 + Zpos p)
                (iter_pos shr_1 p (Build_shr_record M false false))).
  { apply (iter_pos_inv shr_1 (shr_state M)).
    - intros k x Hk. apply shr_state_step; assumption.
    - lia.
    - unfold shr_state. simpl. rewrite Z.div_1_r. repeat split. }
  exact H.
Qed.

Lemma rne_bounds (V G : Z) : V / G <= rne V G <= V / G + 1.
Proof.
  unfold rne.
  destruct ((G <? 2 * (V mod G)) || ((G =? 2 * (V mod G)) && Z.odd (V / G)));
    lia.
Qed.

Lemma rne_exact (V G : Z) : 0 < G -> V mod G = 0 -> rne V G = V / G.
Proof.
  intros HG H. unfold rne. rewrite H. simpl.
  replace (G <? 0) with false by (symmetry; apply Z.ltb_ge; lia).
  replace (G =? 0) with false by (symmetry; apply Z.eqb_neq; lia).
  simpl. lia.
Qed.

Lemma rne_scale (V G c : Z) : 0 < G -> 0 < c -> rne (V * c) (G * c) = rne V G.
Proof.
  intros HG Hc. unfold rne.
  rewrite Z.div_mul_cancel_r by lia.
  rewrite Zmult_mod_distr_r.
  replace (G * c <? 2 * (V mod G * c)) with (G <? 2 * (V mod G)).
  2:{ destruct (Z.ltb_spec G (2 * (V mod G)));
      symmetry; [apply Z.ltb_lt | apply Z.ltb_ge]; nia. }
  replace (G * c =? 2 * (V mod G * c)) with (G =? 2 * (V mod G)).
  2:{ destruct (Z.eqb_spec G (2 * (V mod G)));
      symmetry; [apply Z.eqb_eq | apply Z.eqb_neq]; nia. }
  reflexivity.
Qed.

Lemma rne_mono (V V' G : Z) : 0 < G -> V <= V' -> rne V G <= rne V' G.
Proof.
  intros HG HV.
  assert (Hq : V / G <= V' / G) by (apply Z.div_le_mono; lia).
  pose proof (rne_bounds V G) as B. pose proof (rne_bounds V' G) as B'.
  destruct (Z.eq_dec (V / G) (V' / G)) as [E | NE]; [| lia].
  assert (Hr : V mod G <= V' mod G).
  { pose proof (Z.div_mod V G ltac:(lia)). pose proof (Z.div_mod V' G ltac:(lia)).
    rewrite E in H. nia. }
  unfold rne. rewrite E.
  destruct (Z.ltb_spec G (2 * (V mod G)));
    destruct (Z.ltb_spec G (2 * (V' mod G)));
    destruct (Z.eqb_spec G (2 * (V mod G)));
    destruct (Z.eqb_spec G (2 * (V' mod G)));
    destruct (Z.odd (V' / G)); cbn [orb andb]; lia.
Qed.

Lemma shr_fexp_noshift (m e : Z) :
  fexp prec emax (Zdigits2 m + e) <= e ->
  shr_fexp prec emax m e loc_Exact = (Build_shr_record m false false, e).
Proof.
  intros H. unfold shr_fexp, shr.
  destruct (fexp prec emax (Zdigits2 m + e) - e) as [| p | p] eqn:En;
    [reflexivity | lia | reflexivity].
Qed.

Lemma binary_round_aux_exact (M : positive) (E : Z) :
  fexp prec emax (Zpos (digits2_pos M) + E) <= E ->
  binary_round_aux prec emax false (Zpos M) E loc_Exact
  = if E <=? 971 then S754_finite false M E else S754_infinity false.
Proof.
  intros H. unfold binary_round_aux.
  rewrite (shr_fexp_noshift (Zpos M) E H).
  cbn [shr_m loc_of_shr_record round_nearest_even].
  rewrite (shr_fexp_noshift (Zpos M) E H).
  reflexivity.
Qed.

Lemma shr_fexp_state (m e : Z) :
  e < fexp prec emax (Zdigits2 m + e) ->
  0 <= m ->
  let r := shr_fexp prec emax m e loc_Exact in
  snd r = fexp prec emax (Zdigits2 m + e) /\
  shr_state m (fexp prec emax (Zdigits2 m + e) - e) (fst r).
Proof.
  intros H Hm r. unfold r, shr_fexp.
  destruct (fexp prec emax (Zdigits2 m + e) - e) as [| p | p] eqn:En;
    [lia | | lia].
  change (shr_record_of_loc m loc_Exact) with (Build_shr_record m false false).
  unfold shr. cbn [fst snd]. split; [lia |].
  apply shr_state_iter. exact Hm.
Qed.

Lemma rne_one (M : Z) : rne M 1 = M.
Proof.
  unfold rne. rewrite Z.mod_1_r, Z.div_1_r.
  change (1 <? 2 * 0) with false. change (1 =? 2 * 0) with false.
  cbn [orb andb]. lia.
Qed.

(** [binary_round_aux] on a mantissa that is not too short: the
    mantissa is rounded to nearest-even at the exponent [fexp] gives. *)
Lemma binary_round_aux_rne (M : positive) (E : Z) :
  let e0 := fexp prec emax (Zpos (digits2_pos M) + E) in
  E <= e0 ->
  Zpos M / 2 ^ (e0 - E) < 2 ^ 53 /\
  binary_round_aux prec emax false (Zpos M) E loc_Exact
  = round_result (rne (Zpos M) (2 ^ (e0 - E))) e0.
Proof.
  intros e0 HE.
  pose proof (digits2_pos_bounds M) as [HMd1 HMd].
  assert (He0 : -1074 <= e0 /\ Zpos (digits2_pos M) + E - 53 <= e0).
  { unfold e0. rewrite fexp64_eq. lia. }
  assert (Hpn : 0 < 2 ^ (e0 - E)) by (apply Z.pow_pos_nonneg; lia).
  assert (Hm1 : Zpos M / 2 ^ (e0 - E) < 2 ^ 53).
  { apply Z.div_lt_upper_bound; [exact Hpn |].
    rewrite <- Z.pow_add_r by lia.
    apply Z.lt_le_trans with (1 := HMd).
    apply Z.pow_le_mono_r; lia. }
  split; [exact Hm1 |].
  assert (Hm1' : 0 <= Zpos M / 2 ^ (e0 - E)) by (apply Z.div_pos; lia).
  destruct (Z.eq_dec E e0) as [Heq | Hne].
  - rewrite binary_round_aux_exact by (fold e0; lia).
    rewrite <- Heq, Z.sub_diag. change (2 ^ 0) with 1. rewrite rne_one.
    rewrite <- Heq, Z.sub_diag, Z.div_1_r in Hm1.
    unfold round_result.
    destruct (Z.ltb_spec (Zpos M) (2 ^ 53)); [reflexivity | lia].
  - assert (HE' : E < e0) by lia.
    destruct (shr_fexp_state (Zpos M) E HE') as (Hs1 & Hs2); [lia |].
    change (Zdigits2 (Zpos M)) with (Zpos (digits2_pos M)) in Hs1, Hs2.
    fold e0 in Hs1, Hs2.
    unfold binary_round_aux.
    destruct (shr_fexp prec emax (Zpos M) E loc_Exact) as [mrs e1].
    cbn [fst snd] in Hs1, Hs2. subst e1.
    rewrite (shr_state_loc (Zpos M) (e0 - E) mrs) by (try assumption; lia).
    pose proof (rne_bounds (Zpos M) (2 ^ (e0 - E))) as Hb.
    set (m2 := rne (Zpos M) (2 ^ (e0 - E))) in *.
    destruct m2 as [| q | q] eqn:Em2; [| | lia].
    + rewrite shr_fexp_noshift; [reflexivity |].
      simpl Zdigits2. rewrite fexp64_eq. lia.
    + unfold round_result.
      destruct (Z.ltb_spec (Zpos q) (2 ^ 53)) as [Hlt | Hge].
      * pose proof (digits2_pos_bounds q) as [Hq1 _].
        assert (Zpos (digits2_pos q) - 1 < 53) by (apply pow2_lt_inv; lia).
        rewrite shr_fexp_noshift; [reflexivity |].
        change (Zdigits2 (Zpos q)) with (Zpos (digits2_pos q)).
        rewrite fexp64_eq. lia.
      * assert (Hq : Zpos q = 2 ^ 53) by lia.
        change (2 ^ 53) with (Zpos 9007199254740992) in Hq.
        injection Hq as ->.
        unfold shr_fexp.
        change (Zdigits2 (Zpos 9007199254740992)) with 54.
        assert (Hn2 : fexp prec emax (54 + e0) - e0 = 1)
          by (rewrite fexp64_eq; lia).
        rewrite Hn2. reflexivity.
Qed.

(** When the mantissa is shifted, the rounded mantissa is the quotient
    or its successor, and the quotient when the division is exact. *)
Lemma binary_round_aux_shift (M : positive) (E : Z) :
  let e0 := fexp prec emax (Zpos (digits2_pos M) + E) in
  E < e0 ->
  exists m2,
    Zpos M / 2 ^ (e0 - E) <= m2 <= Zpos M / 2 ^ (e0 - E) + 1 /\
    m2 <= 2 ^ 53 /\
    (Zpos M mod 2 ^ (e0 - E) = 0 -> m2 = Zpos M / 2 ^ (e0 - E)) /\
    binary_round_aux prec emax false (Zpos M) E loc_Exact = round_result m2 e0.
Proof.
  intros e0 HE.
  destruct (binary_round_aux_rne M E) as [Hq Heq]; [fold e0; lia |].
  fold e0 in Hq, Heq.
  pose proof (rne_bounds (Zpos M) (2 ^ (e0 - E))) as Hb.
  exists (rne (Zpos M) (2 ^ (e0 - E))).
  split; [exact Hb |]. split; [lia |]. split; [| exact Heq].
  intros Hmod. apply rne_exact; [apply Z.pow_pos_nonneg; lia | exact Hmod].
Qed.

Lemma pow2_pos (a : Z) : 0 <= a -> 0 < 2 ^ a.
Proof. intros H. apply Z.pow_pos_nonneg; lia. Qed.

Lemma sf_value_bounds (m : positive) (e : Z) :
  0 <= e + 2148 ->
  2 ^ (Zpos (digits2_pos m) - 1 + e + 2148) <= sf_value (Zpos m) e
  /\ sf_value (Zpos m) e < 2 ^ (Zpos (digits2_pos m) + e + 2148).
Proof.
  intros He. unfold sf_value.
  pose proof (digits2_pos_bounds m) as [H1 H2].
  pose proof (pow2_pos (e + 2148) He) as Hp.
  replace (Zpos (digits2_pos m) - 1 + e + 2148)
    with ((Zpos (digits2_pos m) - 1) + (e + 2148)) by lia.
  replace (Zpos (digits2_pos m) + e + 2148)
    with (Zpos (digits2_pos m) + (e + 2148)) by lia.
  rewrite (Z.pow_add_r 2 (Zpos (digits2_pos m) - 1) (e + 2148)) by lia.
  rewrite (Z.pow_add_r 2 (Zpos (digits2_pos m)) (e + 2148)) by lia.
  split.
  - apply Z.mul_le_mono_nonneg_r; lia.
  - apply Z.mul_lt_mono_pos_r; lia.
Qed.

(** The exponent of a bounded mantissa follows its magnitude. *)
Lemma magnitude_le (m1 m2 : positive) (e1 e2 : Z) :
  0 <= e1 + 2148 -> 0 <= e2 + 2148 ->
  sf_value (Zpos m1) e1 <= sf_value (Zpos m2) e2 ->
  Zpos (digits2_pos m1) + e1 <= Zpos (digits2_pos m2) + e2.
Proof.
  intros H1 H2 H.
  pose proof (sf_value_bounds m1 e1 H1) as [L1 _].
  pose proof (sf_value_bounds m2 e2 H2) as [_ U2].
  assert (Zpos (digits2_pos m1) - 1 + e1 + 2148
          < Zpos (digits2_pos m2) + e2 + 2148).
  { apply pow2_lt_inv; lia. }
  lia.
Qed.

Lemma sf_value_le_iff (m1 m2 e : Z) :
  0 <= e + 2148 -> sf_value m1 e <= sf_value m2 e <-> m1 <= m2.
Proof.
  intros He. unfold sf_value. pose proof (pow2_pos _ He). split; intros; nia.
Qed.

Lemma sf_value_lt_iff (m1 m2 e : Z) :
  0 <= e + 2148 -> sf_value m1 e < sf_value m2 e <-> m1 < m2.
Proof.
  intros He. unfold sf_value. pose proof (pow2_pos _ He). split; intros; nia.
Qed.

Lemma sf_value_shift (m e n : Z) :
  0 <= e + 2148 -> 0 <= n -> sf_value m (e + n) = sf_value (m * 2 ^ n) e.
Proof.
  intros He Hn. unfold sf_value.
  replace (e + n + 2148) with (n + (e + 2148)) by lia.
  rewrite (Z.pow_add_r 2 n (e + 2148)) by lia. ring.
Qed.

Lemma SFleb_pos_intro (m1 m2 : positive) (e1 e2 : Z) :
  e1 < e2 \/ (e1 = e2 /\ Zpos m1 <= Zpos m2) ->
  SFleb (S754_finite false m1 e1) (S754_finite false m2 e2) = true.
Proof.
  unfold SFleb, SFcompare. intros [H | [-> H]].
  - apply Z.compare_lt_iff in H. rewrite H. reflexivity.
  - rewrite Z.compare_refl.
    change (Pos.compare_cont Eq m1 m2) with (Pos.compare m1 m2).
    destruct (Pos.compare_spec m1 m2); try reflexivity. lia.
Qed.

Lemma bounded_facts (m : positive) (e : Z) :
  bounded prec emax m e = true ->
  -1074 <= e <= 971 /\ Zpos m < 2 ^ 53 /\ (-1074 < e -> 2 ^ 52 <= Zpos m).
Proof.
  intros H. apply bounded_inv in H. destruct H as [H1 H2].
  pose proof (digits2_pos_bounds m) as [B1 B2].
  split; [lia |]. split.
  - apply Z.lt_le_trans with (1 := B2). apply Z.pow_le_mono_r; lia.
  - intros He. assert (Zpos (digits2_pos m) = 53) as E by lia.
    rewrite E in B1. exact B1.
Qed.

Lemma sf_value_lt_of_exp (m1 m2 : positive) (e1 e2 : Z) :
  bounded prec emax m1 e1 = true -> bounded prec emax m2 e2 = true ->
  e1 < e2 -> sf_value (Zpos m1) e1 < sf_value (Zpos m2) e2.
Proof.
  intros B1 B2 H.
  apply bounded_facts in B1. apply bounded_facts in B2.
  destruct B1 as (R1 & U1 & _). destruct B2 as (R2 & _ & L2).
  specialize (L2 ltac:(lia)).
  replace e2 with (e1 + (e2 - e1)) by lia.
  rewrite sf_value_shift by lia.
  apply sf_value_lt_iff; [lia |].
  assert (2 ^ 1 <= 2 ^ (e2 - e1)) by (apply Z.pow_le_mono_r; lia).
  change (2 ^ 1) with 2 in *. change (2 ^ 53) with (2 * 2 ^ 52) in U1. nia.
Qed.

Lemma SFcompare_value (m1 m2 : positive) (e1 e2 : Z) :
  bounded prec emax m1 e1 = true -> bounded prec emax m2 e2 = true ->
  SFcompare (S754_finite false m1 e1) (S754_finite false m2 e2)
  = Some (sf_value (Zpos m1) e1 ?= sf_value (Zpos m2) e2).
Proof.
  intros B1 B2. unfold SFcompare. f_equal.
  destruct (Z.compare_spec e1 e2) as [-> | H | H].
  - change (Pos.compare_cont Eq m1 m2) with (Zpos m1 ?= Zpos m2).
    pose proof (bounded_facts _ _ B1) as (R & _ & _).
    destruct (Z.compare_spec (Zpos m1) (Zpos m2)) as [E | L | G];
      symmetry.
    + rewrite E. apply Z.compare_refl.
    + apply Z.compare_lt_iff. apply sf_value_lt_iff; [lia | exact L].
    + apply Z.compare_gt_iff. apply sf_value_lt_iff; [lia | exact G].
  - symmetry. apply Z.compare_lt_iff. apply sf_value_lt_of_exp; assumption.
  - symmetry. apply Z.compare_gt_iff. apply sf_value_lt_of_exp; assumption.
Qed.

Section RoundAux.

Variables (M mf : positive) (E ef : Z).
Hypothesis HE : -2148 <= E.
Hypothesis Hcan : E <= fexp prec emax (Zpos (digits2_pos M) + E).
Hypothesis Hf : bounded prec emax mf ef = true.

Lemma round_aux_lb :
  sf_value (Zpos mf) ef <= sf_value (Zpos M) E ->
  SFleb (S754_finite false mf ef)
        (binary_round_aux prec emax false (Zpos M) E loc_Exact) = true.
Proof.
  intros Hv.
  pose proof (bounded_inv _ _ Hf) as [Hfe _].
  pose proof (bounded_facts _ _ Hf) as (Hr & Hfu & Hfl).
  pose proof (magnitude_le mf M ef E ltac:(lia) ltac:(lia) Hv) as Hmag.
  pose proof (binary_round_aux_exact M E) as Hexact.
  pose proof (binary_round_aux_shift M E) as Hshift. cbv zeta in Hshift.
  pose proof Hcan as Hcan'.
  set (e0 := fexp prec emax (Zpos (digits2_pos M) + E)) in *.
  assert (He0 : e0 = Z.max (Zpos (digits2_pos M) + E - 53) (-1074))
    by (unfold e0; apply fexp64_eq).
  clearbody e0.
  assert (Hle : ef <= e0) by lia.
  destruct (Z.eq_dec E e0) as [Heq | Hne].
  - rewrite Hexact by lia.
    destruct (E <=? 971); [| reflexivity].
    apply SFleb_pos_intro.
    destruct (Z.eq_dec ef E) as [-> | Hn]; [right | left; lia].
    split; [reflexivity |].
    apply (sf_value_le_iff _ _ E); [lia | exact Hv].
  - destruct Hshift as (m2 & Hb & Hu & _ & ->); [lia |].
    assert (Hpn : 0 < 2 ^ (e0 - E)) by (apply pow2_pos; lia).
    assert (Hq0 : 0 <= Zpos M / 2 ^ (e0 - E)) by (apply Z.div_pos; lia).
    assert (Hval : sf_value (Zpos M) E < sf_value (Zpos M / 2 ^ (e0 - E) + 1) e0).
    { replace e0 with (E + (e0 - E)) at 2 by lia.
      rewrite sf_value_shift by lia.
      apply sf_value_lt_iff; [lia |].
      pose proof (Z.div_mod (Zpos M) (2 ^ (e0 - E)) ltac:(lia)).
      pose proof (Z.mod_pos_bound (Zpos M) (2 ^ (e0 - E)) Hpn). nia. }
    assert (Hm1 : ef = e0 -> Zpos mf <= Zpos M / 2 ^ (e0 - E)).
    { intros Heq. rewrite Heq in Hv.
      assert (sf_value (Zpos mf) e0 < sf_value (Zpos M / 2 ^ (e0 - E) + 1) e0) by lia.
      apply sf_value_lt_iff in H; lia. }
    unfold round_result. destruct m2 as [| q | q]; [| | lia].
    + exfalso.
      assert (Hq1 : Zpos M / 2 ^ (e0 - E) = 0) by lia.
      destruct (Z.eq_dec e0 (-1074)) as [Hmin | Hnorm].
      * specialize (Hm1 ltac:(lia)). lia.
      * assert (Hn : e0 - E = Zpos (digits2_pos M) - 53) by lia.
        pose proof (digits2_pos_bounds M) as [HM1 _].
        assert (2 ^ 52 <= Zpos M / 2 ^ (e0 - E)).
        { apply Z.div_le_lower_bound; [lia |].
          rewrite <- Z.pow_add_r by lia.
          replace (e0 - E + 52) with (Zpos (digits2_pos M) - 1) by lia.
          exact HM1. }
        assert (0 < 2 ^ 52) by (apply pow2_pos; lia). lia.
    + destruct (Zpos q <? 2 ^ 53).
      * destruct (e0 <=? 971); [| reflexivity].
        apply SFleb_pos_intro.
        destruct (Z.eq_dec ef e0) as [Heq | Hn]; [right | left; lia].
        split; [exact Heq |]. specialize (Hm1 Heq). lia.
      * destruct (e0 + 1 <=? 971); [| reflexivity].
        apply SFleb_pos_intro. left. lia.
Qed.

Lemma round_aux_ub :
  sf_value (Zpos M) E <= sf_value (Zpos mf) ef ->
  SFleb (binary_round_aux prec emax false (Zpos M) E loc_Exact)
        (S754_finite false mf ef) = true.
Proof.
  intros Hv.
  pose proof (bounded_inv _ _ Hf) as [Hfe _].
  pose proof (bounded_facts _ _ Hf) as (Hr & Hfu & Hfl).
  pose proof (magnitude_le M mf E ef ltac:(lia) ltac:(lia) Hv) as Hmag.
  pose proof (binary_round_aux_exact M E) as Hexact.
  pose proof (binary_round_aux_shift M E) as Hshift. cbv zeta in Hshift.
  pose proof Hcan as Hcan'.
  set (e0 := fexp prec emax (Zpos (digits2_pos M) + E)) in *.
  assert (He0 : e0 = Z.max (Zpos (digits2_pos M) + E - 53) (-1074))
    by (unfold e0; apply fexp64_eq).
  clearbody e0.
  assert (Hle : e0 <= ef) by lia.
  destruct (Z.eq_dec E e0) as [Heq | Hne].
  - rewrite Hexact by lia.
    destruct (Z.leb_spec E 971); [| lia].
    apply SFleb_pos_intro.
    destruct (Z.eq_dec ef E) as [-> | Hn]; [right | left; lia].
    split; [reflexivity |].
    apply (sf_value_le_iff _ _ E); [lia | exact Hv].
  - destruct Hshift as (m2 & Hb & Hu & Hex & ->); [lia |].
    assert (Hpn : 0 < 2 ^ (e0 - E)) by (apply pow2_pos; lia).
    assert (Hq0 : 0 <= Zpos M / 2 ^ (e0 - E)) by (apply Z.div_pos; lia).
    assert (Hm2 : ef = e0 -> m2 <= Zpos mf).
    { intros Heq. rewrite Heq in Hv.
      assert (Hv' : Zpos M <= Zpos mf * 2 ^ (e0 - E)).
      { apply (sf_value_le_iff _ _ E); [lia |].
        rewrite <- sf_value_shift by lia.
        replace (E + (e0 - E)) with e0 by lia. exact Hv. }
      pose proof (Z.div_mod (Zpos M) (2 ^ (e0 - E)) ltac:(lia)) as Hdm.
      pose proof (Z.mod_pos_bound (Zpos M) (2 ^ (e0 - E)) Hpn) as Hmb.
      destruct (Z.eq_dec (Zpos M mod 2 ^ (e0 - E)) 0) as [Hz | Hnz].
      - rewrite (Hex Hz). nia.
      - assert (Zpos M / 2 ^ (e0 - E) < Zpos mf) by nia. lia. }
    unfold round_result. destruct m2 as [| q | q]; [reflexivity | | lia].
    destruct (Z.ltb_spec (Zpos q) (2 ^ 53)) as [Hlt | Hge].
    + destruct (Z.leb_spec e0 971); [| lia].
      apply SFleb_pos_intro.
      destruct (Z.eq_dec e0 ef) as [Heq | Hn]; [right | left; lia].
      split; [exact Heq |]. apply Hm2. lia.
    + assert (Hef : e0 < ef).
      { destruct (Z.eq_dec e0 ef) as [Heq | Hn]; [| lia].
        specialize (Hm2 ltac:(lia)). lia. }
      destruct (Z.leb_spec (e0 + 1) 971); [| lia].
      apply SFleb_pos_intro.
      destruct (Z.eq_dec (e0 + 1) ef) as [Heq | Hn]; [right | left; lia].
      split; [exact Heq |]. apply Hfl. lia.
Qed.

End RoundAux.

Lemma iter_xO (m d : positive) :
  Zpos (Pos.iter xO m d) = Zpos m * 2 ^ Zpos d.
Proof.
  induction d as [| d IH] using Pos.peano_ind.
  - simpl. lia.
  - rewrite Pos.iter_succ, Pos2Z.inj_xO, IH, Pos2Z.inj_succ, Z.pow_succ_r by lia.
    ring.
Qed.

Lemma shl_align_spec (m : positive) (e e' : Z) :
  let r := shl_align m e e' in
  snd r = Z.min e e' /\ Zpos (fst r) = Zpos m * 2 ^ (e - snd r).
Proof.
  unfold shl_align. destruct (e' - e) as [| d | d] eqn:Ed; simpl.
  - split; [lia |]. rewrite Z.sub_diag. simpl. lia.
  - split; [lia |]. rewrite Z.sub_diag. simpl. lia.
  - split; [lia |]. rewrite iter_xO.
    replace (e - e') with (Zpos d) by lia. reflexivity.
Qed.

Lemma digits2_pos_shift (m m' : positive) (n : Z) :
  0 <= n -> Zpos m' = Zpos m * 2 ^ n ->
  Zpos (digits2_pos m') = Zpos (digits2_pos m) + n.
Proof.
  intros Hn H. apply digits2_pos_unique. rewrite H.
  pose proof (digits2_pos_bounds m) as [B1 B2].
  pose proof (pow2_pos n Hn) as Hp.
  replace (Zpos (digits2_pos m) + n - 1) with (Zpos (digits2_pos m) - 1 + n) by lia.
  rewrite (Z.pow_add_r 2 (Zpos (digits2_pos m) - 1) n) by lia.
  rewrite (Z.pow_add_r 2 (Zpos (digits2_pos m)) n) by lia.
  split; nia.
Qed.

(** [binary_round] is [binary_round_aux] on an aligned mantissa of the
    same value. *)
Lemma binary_round_aligned (s : bool) (M : positive) (E : Z) :
  -2148 <= E ->
  exists (M' : positive) (E' : Z),
    binary_round prec emax s M E
    = binary_round_aux prec emax s (Zpos M') E' loc_Exact /\
    sf_value (Zpos M') E' = sf_value (Zpos M) E /\
    -2148 <= E' /\ (-1074 <= E -> -1074 <= E') /\
    E' <= fexp prec emax (Zpos (digits2_pos M') + E') /\
    (fexp prec emax (Zpos (digits2_pos M) + E) <= E ->
     E' = fexp prec emax (Zpos (digits2_pos M') + E')).
Proof.
  intros HE. unfold binary_round.
  pose proof (shl_align_spec M E (fexp prec emax (Zpos (digits2_pos M) + E)))
    as [H1 H2].
  destruct (shl_align M E (fexp prec emax (Zpos (digits2_pos M) + E)))
    as [M' E']. cbn [fst snd] in H1, H2.
  exists M', E'. split; [reflexivity |].
  assert (Hd : Zpos (digits2_pos M') + E' = Zpos (digits2_pos M) + E).
  { rewrite (digits2_pos_shift M M' (E - E')) by (try exact H2; lia). lia. }
  rewrite Hd.
  pose proof (fexp64_eq (Zpos (digits2_pos M) + E)) as Hf.
  split.
  - rewrite H2, <- sf_value_shift by lia. f_equal. lia.
  - repeat split; lia.
Qed.

Lemma binary_round_aux_opp (m e : Z) (l : location) :
  binary_round_aux prec emax true m e l
  = SFopp (binary_round_aux prec emax false m e l).
Proof.
  unfold binary_round_aux.
  destruct (shr_fexp prec emax m e l) as [mrs e1].
  destruct (shr_fexp prec emax _ e1 loc_Exact) as [mrs' e2].
  destruct (shr_m mrs'); try reflexivity.
  destruct (e2 <=? emax - prec); reflexivity.
Qed.

Lemma binary_round_opp (M : positive) (E : Z) :
  binary_round prec emax true M E = SFopp (binary_round prec emax false M E).
Proof.
  unfold binary_round.
  destruct (shl_align M E _) as [mz ez]. apply binary_round_aux_opp.
Qed.

Section Round.

Variables (M mf : positive) (E ef : Z).
Hypothesis HE : -2148 <= E.
Hypothesis Hf : bounded prec emax mf ef = true.

Lemma binary_round_lb :
  sf_value (Zpos mf) ef <= sf_value (Zpos M) E ->
  SFleb (S754_finite false mf ef) (binary_round prec emax false M E) = true.
Proof.
  intros Hv.
  destruct (binary_round_aligned false M E HE)
    as (M' & E' & -> & Hval & HE' & _ & Hcan & _).
  apply round_aux_lb; try assumption. rewrite Hval. exact Hv.
Qed.

Lemma binary_round_ub :
  sf_value (Zpos M) E <= sf_value (Zpos mf) ef ->
  SFleb (binary_round prec emax false M E) (S754_finite false mf ef) = true.
Proof.
  intros Hv.
  destruct (binary_round_aligned false M E HE)
    as (M' & E' & -> & Hval & HE' & _ & Hcan & _).
  apply round_aux_ub; try assumption. rewrite Hval. exact Hv.
Qed.

End Round.


Lemma sf_value_pos (m : positive) (e : Z) : 0 <= e + 2148 -> 0 < sf_value (Zpos m) e.
Proof. intros H. unfold sf_value. pose proof (pow2_pos _ H). nia. Qed.

Lemma sf_value_exp_mono (m e e' : Z) :
  0 <= m -> 0 <= e + 2148 -> e <= e' -> sf_value m e <= sf_value m e'.
Proof.
  intros Hm He Hle. unfold sf_value.
  assert (2 ^ (e + 2148) <= 2 ^ (e' + 2148)) by (apply Z.pow_le_mono_r; lia).
  nia.
Qed.

Lemma sf_value_sub (a b e : Z) : sf_value (a - b) e = sf_value a e - sf_value b e.
Proof. unfold sf_value. ring. Qed.

Lemma sf_value_add (a b e : Z) : sf_value (a + b) e = sf_value a e + sf_value b e.
Proof. unfold sf_value. ring. Qed.

Lemma sf_value_cond_Zopp (s : bool) (a e : Z) :
  sf_value (cond_Zopp s a) e = cond_Zopp s (sf_value a e).
Proof. destruct s; unfold sf_value; simpl; ring. Qed.

Lemma sf_value_double (m e : Z) :
  0 <= e + 2148 -> sf_value m (e + 1) = 2 * sf_value m e.
Proof.
  intros He. rewrite sf_value_shift by lia. unfold sf_value. change (2 ^ 1) with 2. ring.
Qed.

Lemma SFleb_value (m1 m2 : positive) (e1 e2 : Z) :
  bounded prec emax m1 e1 = true -> bounded prec emax m2 e2 = true ->
  SFleb (S754_finite false m1 e1) (S754_finite false m2 e2)
  = (sf_value (Zpos m1) e1 <=? sf_value (Zpos m2) e2).
Proof.
  intros B1 B2. unfold SFleb. rewrite SFcompare_value by assumption.
  unfold Z.leb. destruct (sf_value (Zpos m1) e1 ?= sf_value (Zpos m2) e2); reflexivity.
Qed.

Section Normalize.

Variables (Z0 : Z) (E : Z).
Hypothesis HE : -1074 <= E.

Lemma binary_normalize_neg :
  Z0 < 0 ->
  SFltb (binary_normalize prec emax Z0 E false) (S754_zero false) = true.
Proof.
  intros HZ. destruct Z0 as [| M | M]; [lia | lia |]. simpl.
  rewrite binary_round_opp.
  assert (H : SFleb sf_min (binary_round prec emax false M E) = true).
  { apply binary_round_lb; [lia | reflexivity |].
    apply Z.le_trans with (sf_value (Zpos M) (-1074)).
    - apply sf_value_le_iff; lia.
    - apply sf_value_exp_mono; lia. }
  destruct (binary_round prec emax false M E) as [s | s | | s m e];
    try destruct s; try discriminate H; reflexivity.
Qed.

Variables (mf : positive) (ef : Z).
Hypothesis Hf : bounded prec emax mf ef = true.

Lemma binary_normalize_lb :
  sf_value (Zpos mf) ef <= sf_value Z0 E ->
  SFleb (S754_finite false mf ef) (binary_normalize prec emax Z0 E false) = true.
Proof.
  intros Hv.
  pose proof (bounded_facts _ _ Hf) as (Hr & _ & _).
  pose proof (sf_value_pos mf ef ltac:(lia)) as Hp.
  destruct Z0 as [| M | M].
  - change (sf_value 0 E) with 0 in Hv. lia.
  - simpl. apply binary_round_lb; [lia | assumption | exact Hv].
  - assert (sf_value (Zneg M) E < 0).
    { unfold sf_value. pose proof (pow2_pos (E + 2148) ltac:(lia)). nia. }
    lia.
Qed.

Lemma binary_normalize_ub :
  sf_value Z0 E <= sf_value (Zpos mf) ef ->
  SFleb (binary_normalize prec emax Z0 E false) (S754_finite false mf ef) = true.
Proof.
  intros Hv. destruct Z0 as [| M | M] eqn:EZ.
  - reflexivity.
  - simpl. apply binary_round_ub; [lia | assumption | exact Hv].
  - pose proof (binary_normalize_neg ltac:(lia)) as H. rewrite EZ in H.
    destruct (binary_normalize prec emax (Zneg M) E false) as [s | s | | s m e];
      try destruct s; try discriminate H; reflexivity.
Qed.

End Normalize.


(** Subtraction of finite numbers: the difference of the values,
    normalised at the smaller exponent. *)
Lemma SFsub_finite (mx m : positive) (ex e : Z) (s : bool) :
  exists Z0,
    SFsub prec emax (S754_finite false mx ex) (S754_finite s m e)
    = binary_normalize prec emax Z0 (Z.min ex e) false /\
    (-2148 <= Z.min ex e ->
     sf_value Z0 (Z.min ex e)
     = sf_value (Zpos mx) ex - cond_Zopp s (sf_value (Zpos m) e)).
Proof.
  unfold SFsub.
  pose proof (shl_align_spec mx ex (Z.min ex e)) as [A1 A2].
  pose proof (shl_align_spec m e (Z.min ex e)) as [B1 B2].
  destruct (shl_align mx ex (Z.min ex e)) as [ax ex'].
  destruct (shl_align m e (Z.min ex e)) as [am e'].
  cbn [fst snd] in *.
  eexists. split; [reflexivity |]. intros HE.
  rewrite sf_value_sub, !sf_value_cond_Zopp. cbn [cond_Zopp].
  rewrite A2, B2, A1, B1.
  replace (Z.min ex (Z.min ex e)) with (Z.min ex e) by lia.
  replace (Z.min e (Z.min ex e)) with (Z.min ex e) by lia.
  rewrite <- !sf_value_shift by lia.
  replace (Z.min ex e + (ex - Z.min ex e)) with ex by lia.
  replace (Z.min ex e + (e - Z.min ex e)) with e by lia.
  reflexivity.
Qed.

Lemma Zdigits2_value (M : positive) (E : Z) :
  0 <= E + 2148 ->
  Zdigits2 (sf_value (Zpos M) E) = Zpos (digits2_pos M) + E + 2148.
Proof.
  intros HE. unfold sf_value.
  assert (Hp : 0 < 2 ^ (E + 2148)) by (apply Z.pow_pos_nonneg; lia).
  destruct (Zpos M * 2 ^ (E + 2148)) as [| V | V] eqn:EV; [lia | | lia].
  change (Zdigits2 (Zpos V)) with (Zpos (digits2_pos V)).
  rewrite (digits2_pos_shift M V (E + 2148)) by lia. lia.
Qed.

Lemma binary_round_aux_value (M : positive) (E : Z) :
  -2148 <= E ->
  E <= fexp prec emax (Zpos (digits2_pos M) + E) ->
  binary_round_aux prec emax false (Zpos M) E loc_Exact
  = round_value (sf_value (Zpos M) E).
Proof.
  intros HE Hc. destruct (binary_round_aux_rne M E Hc) as [_ ->].
  unfold round_value. rewrite Zdigits2_value by lia.
  replace (Zpos (digits2_pos M) + E + 2148 - 2148)
    with (Zpos (digits2_pos M) + E) by lia.
  set (e0 := fexp prec emax (Zpos (digits2_pos M) + E)) in *.
  f_equal. unfold sf_value.
  replace (e0 + 2148) with ((e0 - E) + (E + 2148)) by lia.
  rewrite (Z.pow_add_r 2 (e0 - E) (E + 2148)) by lia.
  rewrite rne_scale; [reflexivity | |]; apply Z.pow_pos_nonneg; lia.
Qed.

Lemma binary_round_value (M : positive) (E : Z) :
  -2148 <= E ->
  binary_round prec emax false M E = round_value (sf_value (Zpos M) E).
Proof.
  intros HE.
  destruct (binary_round_aligned false M E HE)
    as (M' & E' & -> & Hval & HE' & _ & Hcan & _).
  rewrite binary_round_aux_value by assumption. rewrite Hval. reflexivity.
Qed.

Lemma round_result_le (m2 m2' e0 e0' : Z) :
  0 <= m2 <= 2 ^ 53 -> 0 <= m2' <= 2 ^ 53 ->
  (e0 < e0' /\ 2 ^ 52 <= m2') \/ (e0 = e0' /\ m2 <= m2') ->
  SFleb (round_result m2 e0) (round_result m2' e0') = true.
Proof.
  intros H1 H2 H. unfold round_result.
  change (2 ^ 52) with 4503599627370496 in *.
  change (2 ^ 53) with 9007199254740992 in *.
  destruct m2 as [| q | q]; [| | lia]; destruct m2' as [| q' | q']; try lia.
  - reflexivity.
  - destruct (Zpos q' <? _); [destruct (e0' <=? 971) | destruct (e0' + 1 <=? 971)];
      reflexivity.
  - destruct (Z.ltb_spec (Zpos q) 9007199254740992);
      destruct (Z.ltb_spec (Zpos q') 9007199254740992);
      destruct (Z.leb_spec e0 971); destruct (Z.leb_spec e0' 971);
      destruct (Z.leb_spec (e0 + 1) 971); destruct (Z.leb_spec (e0' + 1) 971);
      try reflexivity; try lia;
      apply SFleb_pos_intro; lia.
Qed.

Lemma Zdigits2_bounds (V : Z) :
  0 < V -> 2 ^ (Zdigits2 V - 1) <= V < 2 ^ Zdigits2 V.
Proof.
  intros HV. destruct V as [| p | p]; [lia | | lia].
  apply digits2_pos_bounds.
Qed.

Lemma Zdigits2_mono (V V' : Z) : 0 < V <= V' -> Zdigits2 V <= Zdigits2 V'.
Proof.
  intros [H0 H].
  pose proof (Zdigits2_bounds V H0) as [L _].
  pose proof (Zdigits2_bounds V' ltac:(lia)) as [_ U].
  assert (0 < Zdigits2 V') by (destruct V'; simpl; lia).
  assert (Zdigits2 V - 1 < Zdigits2 V') by (apply pow2_lt_inv; lia).
  lia.
Qed.

Lemma round_value_bounds (V : Z) :
  0 < V ->
  let e0 := fexp prec emax (Zdigits2 V - 2148) in
  0 <= e0 + 2148 ->
  0 <= rne V (2 ^ (e0 + 2148)) <= 2 ^ 53 /\
  (-1074 < e0 -> 2 ^ 52 <= rne V (2 ^ (e0 + 2148))).
Proof.
  intros HV e0 He.
  pose proof (Zdigits2_bounds V HV) as [L U].
  assert (Hf : e0 = Z.max (Zdigits2 V - 2148 - 53) (-1074))
    by (unfold e0; apply fexp64_eq).
  assert (Hp : 0 < 2 ^ (e0 + 2148)) by (apply Z.pow_pos_nonneg; lia).
  pose proof (rne_bounds V (2 ^ (e0 + 2148))) as B.
  assert (Hq0 : 0 <= V / 2 ^ (e0 + 2148)) by (apply Z.div_pos; lia).
  assert (Hq1 : V / 2 ^ (e0 + 2148) < 2 ^ 53).
  { apply Z.div_lt_upper_bound; [exact Hp |].
    rewrite <- Z.pow_add_r by lia.
    apply Z.lt_le_trans with (1 := U). apply Z.pow_le_mono_r; lia. }
  split; [lia |]. intros Hn.
  assert (2 ^ 52 <= V / 2 ^ (e0 + 2148)); [| lia].
  apply Z.div_le_lower_bound; [exact Hp |].
  rewrite <- Z.pow_add_r by lia.
  apply Z.le_trans with (2 := L). apply Z.pow_le_mono_r; lia.
Qed.

(** Rounding is monotone. *)
Lemma round_value_mono (V V' : Z) :
  0 < V <= V' -> SFleb (round_value V) (round_value V') = true.
Proof.
  intros [H0 H]. unfold round_value.
  pose proof (Zdigits2_mono V V' ltac:(lia)) as Hd.
  assert (0 < Zdigits2 V) by (destruct V; simpl; lia).
  assert (He : 0 <= fexp prec emax (Zdigits2 V - 2148) + 2148)
    by (rewrite fexp64_eq; lia).
  assert (He' : 0 <= fexp prec emax (Zdigits2 V' - 2148) + 2148)
    by (rewrite fexp64_eq; lia).
  destruct (round_value_bounds V H0 He) as [B1 _].
  destruct (round_value_bounds V' ltac:(lia) He') as [B1' B2'].
  pose proof (fexp64_eq (Zdigits2 V - 2148)) as F.
  pose proof (fexp64_eq (Zdigits2 V' - 2148)) as F'.
  set (e0 := fexp prec emax (Zdigits2 V - 2148)) in *.
  set (e0' := fexp prec emax (Zdigits2 V' - 2148)) in *.
  apply round_result_le; [assumption | assumption |].
  destruct (Z.eq_dec e0 e0') as [Heq | Hne].
  - right. split; [exact Heq |]. rewrite <- Heq.
    apply rne_mono; [apply Z.pow_pos_nonneg; lia | exact H].
  - left. split; [lia |]. apply B2'. lia.
Qed.

Lemma round_value_shape (V : Z) :
  match round_value V with
  | S754_zero false | S754_finite false _ _ | S754_infinity false => True
  | _ => False
  end.
Proof.
  unfold round_value, round_result.
  destruct (rne V _) as [| q | q]; try exact I.
  destruct (Zpos q <? 2 ^ 53);
    [destruct (_ <=? 971) | destruct (_ + 1 <=? 971)]; exact I.
Qed.

Lemma binary_normalize_value (Z0 E : Z) :
  -2148 <= E ->
  binary_normalize prec emax Z0 E false
  = match Z0 with
    | 0 => S754_zero false
    | Zpos _ => round_value (sf_value Z0 E)
    | Zneg _ => SFopp (round_value (sf_value (- Z0) E))
    end.
Proof.
  intros HE. destruct Z0 as [| M | M]; simpl.
  - reflexivity.
  - apply binary_round_value. exact HE.
  - rewrite binary_round_opp, binary_round_value by exact HE. reflexivity.
Qed.

Lemma sf_value_opp (a e : Z) : sf_value (- a) e = - sf_value a e.
Proof. unfold sf_value. ring. Qed.

Lemma sf_value_sign (a e : Z) :
  0 <= e + 2148 ->
  (0 < a <-> 0 < sf_value a e) /\ (a < 0 <-> sf_value a e < 0).
Proof.
  intros He. unfold sf_value. pose proof (pow2_pos _ He). split; split; nia.
Qed.

Lemma SFcompare_opp (a b : spec_float) :
  SFcompare (SFopp a) (SFopp b) = SFcompare b a.
Proof.
  destruct a as [sa | sa | | sa ma ea], b as [sb | sb | | sb mb eb];
    simpl; try reflexivity;
    try (destruct sa; reflexivity); try (destruct sb; reflexivity);
    try (destruct sa, sb; reflexivity).
  rewrite (Z.compare_antisym ea eb).
  change (PosDef.Pos.compare_cont Eq ma mb) with (Pos.compare ma mb).
  change (PosDef.Pos.compare_cont Eq mb ma) with (Pos.compare mb ma).
  rewrite (Pos.compare_antisym ma mb).
  destruct sa, sb; simpl; try reflexivity;
    destruct (ea ?= eb); simpl; try reflexivity;
    destruct (ma ?= mb)%positive; reflexivity.
Qed.

Lemma SFleb_opp (a b : spec_float) : SFleb (SFopp a) (SFopp b) = SFleb b a.
Proof. unfold SFleb. rewrite SFcompare_opp. reflexivity. Qed.

(** Normalisation is monotone in the value it is given. *)
Lemma binary_normalize_mono (Z1 Z2 E1 E2 : Z) :
  -2148 <= E1 -> -2148 <= E2 ->
  sf_value Z1 E1 <= sf_value Z2 E2 ->
  SFleb (binary_normalize prec emax Z1 E1 false)
        (binary_normalize prec emax Z2 E2 false) = true.
Proof.
  intros H1 H2 Hv.
  rewrite !binary_normalize_value by assumption.
  pose proof (sf_value_sign Z1 E1 ltac:(lia)) as [P1 N1].
  pose proof (sf_value_sign Z2 E2 ltac:(lia)) as [P2 N2].
  destruct Z1 as [| M1 | M1], Z2 as [| M2 | M2];
    try (exfalso; change (sf_value 0 E1) with 0 in *; change (sf_value 0 E2) with 0 in *;
         lia).
  - reflexivity.
  - pose proof (round_value_shape (sf_value (Zpos M2) E2)) as S.
    destruct (round_value (sf_value (Zpos M2) E2)) as [[|] | [|] | | [|] m e];
      try contradiction; reflexivity.
  - apply round_value_mono. lia.
  - pose proof (round_value_shape (sf_value (- Zneg M1) E1)) as S.
    destruct (round_value (sf_value (- Zneg M1) E1)) as [[|] | [|] | | [|] m e];
      try contradiction; reflexivity.
  - pose proof (round_value_shape (sf_value (- Zneg M1) E1)) as S.
    pose proof (round_value_shape (sf_value (Zpos M2) E2)) as S'.
    destruct (round_value (sf_value (- Zneg M1) E1)) as [[|] | [|] | | [|] m e];
      try contradiction;
      destruct (round_value (sf_value (Zpos M2) E2)) as [[|] | [|] | | [|] m' e'];
      try contradiction; reflexivity.
  - rewrite SFleb_opp. apply round_value_mono.
    rewrite !sf_value_opp. split; lia.
Qed.

Lemma binary_normalize_not_nan (Z0 E : Z) :
  -2148 <= E -> binary_normalize prec emax Z0 E false <> S754_nan.
Proof.
  intros HE. rewrite binary_normalize_value by exact HE.
  destruct Z0 as [| M | M]; [discriminate | |].
  - pose proof (round_value_shape (sf_value (Zpos M) E)) as S.
    destruct (round_value (sf_value (Zpos M) E)); try contradiction; discriminate.
  - pose proof (round_value_shape (sf_value (- Zneg M) E)) as S.
    destruct (round_value (sf_value (- Zneg M) E)); try contradiction; discriminate.
Qed.

Lemma shl_align_value (m : positive) (e e' : Z) :
  -2148 <= e' -> e' <= e ->
  sf_value (Zpos (fst (shl_align m e e'))) e' = sf_value (Zpos m) e.
Proof.
  intros H1 H2. pose proof (shl_align_spec m e e') as [A1 A2].
  destruct (shl_align m e e') as [a ea]. cbn [fst snd] in *.
  rewrite A2, A1. replace (Z.min e e') with e' by lia.
  rewrite <- sf_value_shift by lia. f_equal. lia.
Qed.

(** Addition and subtraction of finite numbers: the sum and the
    difference of the values, normalised at the smaller exponent. *)
Lemma SFadd_finite (sx s : bool) (mx m : positive) (ex e : Z) :
  -2148 <= Z.min ex e ->
  exists Z0,
    SFadd prec emax (S754_finite sx mx ex) (S754_finite s m e)
    = binary_normalize prec emax Z0 (Z.min ex e) false /\
    sf_value Z0 (Z.min ex e)
    = cond_Zopp sx (sf_value (Zpos mx) ex) + cond_Zopp s (sf_value (Zpos m) e).
Proof.
  intros HE. unfold SFadd. eexists. split; [reflexivity |].
  rewrite sf_value_add, !sf_value_cond_Zopp.
  rewrite !shl_align_value by lia. reflexivity.
Qed.

Lemma SFsub_finite_signed (sx s : bool) (mx m : positive) (ex e : Z) :
  -2148 <= Z.min ex e ->
  exists Z0,
    SFsub prec emax (S754_finite sx mx ex) (S754_finite s m e)
    = binary_normalize prec emax Z0 (Z.min ex e) false /\
    sf_value Z0 (Z.min ex e)
    = cond_Zopp sx (sf_value (Zpos mx) ex) - cond_Zopp s (sf_value (Zpos m) e).
Proof.
  intros HE. unfold SFsub. eexists. split; [reflexivity |].
  rewrite sf_value_sub, !sf_value_cond_Zopp.
  rewrite !shl_align_value by lia. reflexivity.
Qed.

Ltac bounded_exps :=
  repeat match goal with
  | H : valid_binary (S754_finite _ _ _) = true |- _ =>
      simpl in H; pose proof (bounded_facts _ _ H) as (? & _ & _); clear H
  end.

(** Adding a larger positive number gives a larger sum. *)
Lemma SF_add_le (x y y' : spec_float) :
  valid_binary x = true -> valid_binary y = true -> valid_binary y' = true ->
  SFltb (S754_zero false) y = true ->
  SFleb y y' = true ->
  SF64add x y' <> S754_nan ->
  SFleb (SF64add x y) (SF64add x y') = true.
Proof.
  intros Vx Vy Vy' Hpos Hle Hn.
  destruct y as [sy | sy | | sy my ey]; try discriminate Hpos;
    destruct sy; try discriminate Hpos;
    destruct y' as [sy' | sy' | | sy' my' ey']; try discriminate Hle;
    destruct sy'; try discriminate Hle.
  - destruct x as [sx | sx | | sx mx ex]; try (destruct sx);
      try reflexivity; try (exfalso; apply Hn; reflexivity).
  - destruct x as [sx | sx | | sx mx ex]; try (destruct sx);
      try reflexivity; try (exfalso; apply Hn; reflexivity).
    + bounded_exps.
      destruct (SFadd_finite true false mx my ex ey ltac:(lia)) as (Z0 & HZ & _).
      unfold SF64add. rewrite HZ.
      pose proof (binary_normalize_not_nan Z0 (Z.min ex ey) ltac:(lia)) as NN.
      destruct (binary_normalize prec emax Z0 (Z.min ex ey) false)
        as [[|] | [|] | | [|] m e]; try reflexivity. congruence.
    + bounded_exps.
      destruct (SFadd_finite false false mx my ex ey ltac:(lia)) as (Z0 & HZ & _).
      unfold SF64add. rewrite HZ.
      pose proof (binary_normalize_not_nan Z0 (Z.min ex ey) ltac:(lia)) as NN.
      destruct (binary_normalize prec emax Z0 (Z.min ex ey) false)
        as [[|] | [|] | | [|] m e]; try reflexivity. congruence.
  - destruct x as [sx | sx | | sx mx ex].
    + exact Hle.
    + destruct sx; reflexivity.
    + exfalso. apply Hn. reflexivity.
    + pose proof Vy as By. pose proof Vy' as By'. simpl in By, By'.
      bounded_exps.
      destruct (SFadd_finite sx false mx my ex ey ltac:(lia)) as (Z1 & HZ1 & V1).
      destruct (SFadd_finite sx false mx my' ex ey' ltac:(lia)) as (Z2 & HZ2 & V2).
      unfold SF64add. rewrite HZ1, HZ2.
      apply binary_normalize_mono; [lia | lia |].
      rewrite V1, V2. cbn [cond_Zopp].
      rewrite SFleb_value in Hle by assumption. apply Z.leb_le in Hle. lia.
Qed.

(** Subtracting a larger positive number gives a smaller difference. *)
Lemma SF_sub_le (x y y' : spec_float) :
  valid_binary x = true -> valid_binary y = true -> valid_binary y' = true ->
  SFltb (S754_zero false) y = true ->
  SFleb y y' = true ->
  SF64sub x y' <> S754_nan ->
  SFleb (SF64sub x y') (SF64sub x y) = true.
Proof.
  intros Vx Vy Vy' Hpos Hle Hn.
  destruct y as [sy | sy | | sy my ey]; try discriminate Hpos;
    destruct sy; try discriminate Hpos;
    destruct y' as [sy' | sy' | | sy' my' ey']; try discriminate Hle;
    destruct sy'; try discriminate Hle.
  - destruct x as [sx | sx | | sx mx ex]; try (destruct sx);
      try reflexivity; try (exfalso; apply Hn; reflexivity).
  - destruct x as [sx | sx | | sx mx ex]; try (destruct sx);
      try reflexivity; try (exfalso; apply Hn; reflexivity).
    + bounded_exps.
      destruct (SFsub_finite_signed true false mx my ex ey ltac:(lia))
        as (Z0 & HZ & _).
      unfold SF64sub. rewrite HZ.
      pose proof (binary_normalize_not_nan Z0 (Z.min ex ey) ltac:(lia)) as NN.
      destruct (binary_normalize prec emax Z0 (Z.min ex ey) false)
        as [[|] | [|] | | [|] m e]; try reflexivity. congruence.
    + bounded_exps.
      destruct (SFsub_finite_signed false false mx my ex ey ltac:(lia))
        as (Z0 & HZ & _).
      unfold SF64sub. rewrite HZ.
      pose proof (binary_normalize_not_nan Z0 (Z.min ex ey) ltac:(lia)) as NN.
      destruct (binary_normalize prec emax Z0 (Z.min ex ey) false)
        as [[|] | [|] | | [|] m e]; try reflexivity. congruence.
  - destruct x as [sx | sx | | sx mx ex].
    + change (SFleb (S754_finite true my' ey') (S754_finite true my ey) = true).
      change (S754_finite true my' ey') with (SFopp (S754_finite false my' ey')).
      change (S754_finite true my ey) with (SFopp (S754_finite false my ey)).
      rewrite SFleb_opp. exact Hle.
    + destruct sx; reflexivity.
    + exfalso. apply Hn. reflexivity.
    + pose proof Vy as By. pose proof Vy' as By'. simpl in By, By'.
      bounded_exps.
      destruct (SFsub_finite_signed sx false mx my ex ey ltac:(lia))
        as (Z1 & HZ1 & V1).
      destruct (SFsub_finite_signed sx false mx my' ex ey' ltac:(lia))
        as (Z2 & HZ2 & V2).
      unfold SF64sub. rewrite HZ1, HZ2.
      apply binary_normalize_mono; [lia | lia |].
      rewrite V1, V2. cbn [cond_Zopp].
      rewrite SFleb_value in Hle by assumption. apply Z.leb_le in Hle. lia.
Qed.

Lemma sf_value_mul (m1 m2 e1 e2 : Z) :
  0 <= e1 + 2148 -> 0 <= e2 + 2148 -> 0 <= e1 + e2 + 2148 ->
  sf_value (m1 * m2) (e1 + e2) * 2 ^ 2148 = sf_value m1 e1 * sf_value m2 e2.
Proof.
  intros H1 H2 H3. unfold sf_value.
  replace (e1 + e2 + 2148) with ((e1 + 2148) + (e2 + 2148) - 2148) by lia.
  assert (E : 2 ^ (e1 + 2148 + (e2 + 2148) - 2148) * 2 ^ 2148
              = 2 ^ (e1 + 2148) * 2 ^ (e2 + 2148)).
  { rewrite <- !Z.pow_add_r by lia. f_equal. lia. }
  set (a := 2 ^ (e1 + 2148 + (e2 + 2148) - 2148)) in *.
  set (b := 2 ^ 2148) in *.
  set (c := 2 ^ (e1 + 2148)) in *. set (d := 2 ^ (e2 + 2148)) in *.
  clearbody a b c d.
  replace (m1 * m2 * a * b) with (m1 * m2 * (a * b)) by ring.
  rewrite E. ring.
Qed.

Lemma sf_value_one : sf_value 4503599627370496 (-52) = 2 ^ 2148.
Proof.
  unfold sf_value. change 4503599627370496 with (2 ^ 52).
  rewrite <- Z.pow_add_r by lia. reflexivity.
Qed.

Lemma digits2_pos_ge (m : positive) (k : Z) :
  0 <= k -> 2 ^ k <= Zpos m -> k + 1 <= Zpos (digits2_pos m).
Proof.
  intros Hk H. pose proof (digits2_pos_bounds m) as [_ U].
  assert (k < Zpos (digits2_pos m)) by (apply pow2_lt_inv; lia). lia.
Qed.

Section Mul.

Variables (mc ma : positive) (ec ea : Z).
Hypothesis Bc : bounded prec emax mc ec = true.
Hypothesis Ba : bounded prec emax ma ea = true.

Lemma SFmul_finite :
  SF64mul (S754_finite false mc ec) (S754_finite false ma ea)
  = binary_round_aux prec emax false (Zpos (mc * ma)) (ec + ea) loc_Exact.
Proof. reflexivity. Qed.

(** Multiplying by a number that is at least 1 does not decrease. *)
Lemma SF_mul_ge_finite :
  sf_value 4503599627370496 (-52) <= sf_value (Zpos mc) ec ->
  SFleb (S754_finite false ma ea)
        (SF64mul (S754_finite false mc ec) (S754_finite false ma ea)) = true.
Proof.
  intros H1. rewrite SFmul_finite.
  pose proof (bounded_facts _ _ Bc) as (Rc & Uc & Lc).
  pose proof (bounded_facts _ _ Ba) as (Ra & Ua & La).
  rewrite sf_value_one in H1.
  assert (Hmc : 2 ^ 52 <= Zpos mc).
  { apply Lc. destruct (Z.eq_dec ec (-1074)) as [E | NE]; [exfalso | lia].
    subst ec.
    assert (sf_value (Zpos mc) (-1074) < sf_value (2 ^ 53) (-1074))
      by (apply sf_value_lt_iff; lia).
    assert (sf_value (2 ^ 53) (-1074) = 2 ^ 1127).
    { unfold sf_value. rewrite <- Z.pow_add_r by lia. reflexivity. }
    assert (2 ^ 1127 < 2 ^ 2148) by (apply Z.pow_lt_mono_r; lia).
    lia. }
  apply round_aux_lb.
  - lia.
  - rewrite fexp64_eq.
    assert (53 <= Zpos (digits2_pos (mc * ma))); [| lia].
    apply (digits2_pos_ge (mc * ma) 52); [lia |].
    rewrite Pos2Z.inj_mul. nia.
  - exact Ba.
  - rewrite Pos2Z.inj_mul.
    pose proof (sf_value_mul (Zpos mc) (Zpos ma) ec ea ltac:(lia) ltac:(lia) ltac:(lia)) as E.
    pose proof (sf_value_pos ma ea ltac:(lia)) as Pa.
    assert (P : 0 < 2 ^ 2148) by (apply pow2_pos; lia).
    set (v := sf_value (Zpos mc * Zpos ma) (ec + ea)) in *.
    set (va := sf_value (Zpos ma) ea) in *. set (vc := sf_value (Zpos mc) ec) in *.
    set (p := 2 ^ 2148) in *. clearbody v va vc p. nia.
Qed.

End Mul.

(** Multiplying by 1 does not increase. *)
Lemma SF_mul_one_le_finite (ma : positive) (ea : Z) :
  bounded prec emax ma ea = true ->
  SFleb (SF64mul sf_one (S754_finite false ma ea)) (S754_finite false ma ea)
  = true.
Proof.
  intros Ba. unfold sf_one. rewrite SFmul_finite.
  pose proof (bounded_facts _ _ Ba) as (Ra & Ua & La).
  apply round_aux_ub.
  - lia.
  - rewrite fexp64_eq.
    assert (53 <= Zpos (digits2_pos (4503599627370496 * ma))); [| lia].
    apply (digits2_pos_ge (4503599627370496 * ma) 52); [lia |].
    rewrite Pos2Z.inj_mul. change (2 ^ 52) with 4503599627370496. nia.
  - exact Ba.
  - rewrite Pos2Z.inj_mul.
    pose proof (sf_value_mul 4503599627370496 (Zpos ma) (-52) ea ltac:(lia) ltac:(lia) ltac:(lia)) as E.
    rewrite sf_value_one in E.
    assert (P : 0 < 2 ^ 2148) by (apply pow2_pos; lia).
    set (v := sf_value (4503599627370496 * Zpos ma) (-52 + ea)) in *.
    set (va := sf_value (Zpos ma) ea) in *.
    set (p := 2 ^ 2148) in *. clearbody v va p. nia.
Qed.

Lemma sf_value_one_half :
  sf_value 4503599627370496 (-52) = 2 * sf_value 4503599627370496 (-53).
Proof. apply (sf_value_double 4503599627370496 (-53)). lia. Qed.

(** [1 - t] is at least 0.5 when [t] is at most 0.5. *)
Lemma SF_sub_one_ge_half (t : spec_float) :
  valid_binary t = true ->
  SFleb t sf_half = true -> SFleb sf_half (SF64sub sf_one t) = true.
Proof.
  intros Hv Ht. destruct t as [s | s | | s m e].
  - reflexivity.
  - destruct s; [reflexivity | discriminate Ht].
  - discriminate Ht.
  - simpl in Hv.
    pose proof (bounded_facts _ _ Hv) as (Hr & _ & _).
    destruct (SFsub_finite 4503599627370496 m (-52) e s) as (Z0 & HZ & HZv).
    unfold SF64sub, sf_one. rewrite HZ.
    apply binary_normalize_lb; [lia | reflexivity |].
    rewrite HZv by lia. rewrite sf_value_one_half.
    pose proof (sf_value_pos m e ltac:(lia)).
    pose proof (sf_value_pos 4503599627370496 (-53) ltac:(lia)).
    destruct s; cbn [cond_Zopp]; [lia |].
    unfold sf_half in Ht. rewrite SFleb_value in Ht by (assumption || reflexivity).
    apply Z.leb_le in Ht. lia.
Qed.

(** [1 - t] is at most 0.5 when [t] is above 0.5. *)
Lemma SF_sub_one_le_half (t : spec_float) :
  valid_binary t = true ->
  SFleb t sf_half = false -> SFleb sf_half t = true ->
  SFleb (SF64sub sf_one t) sf_half = true.
Proof.
  intros Hv Ht Ht'. destruct t as [s | s | | s m e].
  - discriminate Ht.
  - destruct s; [discriminate Ht | reflexivity].
  - discriminate Ht'.
  - simpl in Hv.
    pose proof (bounded_facts _ _ Hv) as (Hr & _ & _).
    destruct s; [discriminate Ht |].
    destruct (SFsub_finite 4503599627370496 m (-52) e false) as (Z0 & HZ & HZv).
    unfold SF64sub, sf_one. rewrite HZ.
    apply binary_normalize_ub; [lia | reflexivity |].
    rewrite HZv by lia. rewrite sf_value_one_half. cbn [cond_Zopp].
    unfold sf_half in Ht. rewrite SFleb_value in Ht by (assumption || reflexivity).
    apply Z.leb_gt in Ht. lia.
Qed.



(** Multiplying a positive number by a number that is at least 1 does
    not decrease it, and multiplying it by 1 does not increase it. *)
Lemma SF_mul_ge (c a : spec_float) :
  valid_binary c = true -> valid_binary a = true ->
  SFleb sf_one c = true -> SFltb (S754_zero false) a = true ->
  SFleb a (SF64mul c a) = true.
Proof.
  intros Vc Va Hc Ha.
  destruct c as [sc | sc | | sc mc ec]; try discriminate Hc;
    destruct sc; try discriminate Hc;
    destruct a as [sa | sa | | sa ma ea]; try discriminate Ha;
    destruct sa; try discriminate Ha; try reflexivity.
  simpl in Vc, Va. apply SF_mul_ge_finite; try assumption.
  unfold sf_one in Hc. rewrite SFleb_value in Hc by (assumption || reflexivity).
  apply Z.leb_le. exact Hc.
Qed.

Lemma SF_mul_one_le (a : spec_float) :
  valid_binary a = true -> SFltb (S754_zero false) a = true ->
  SFleb (SF64mul sf_one a) a = true.
Proof.
  intros Va Ha.
  destruct a as [sa | sa | | sa ma ea]; try discriminate Ha;
    destruct sa; try discriminate Ha; try reflexivity.
  simpl in Va. apply SF_mul_one_le_finite. exact Va.
Qed.

End RoundingFacts.

(** ** Subtraction from one in binary64 *)

Lemma Prim2SF_one : Prim2SF (F64.of_int 1) = sf_one.
Proof. vm_compute. reflexivity. Qed.

Lemma Prim2SF_half : Prim2SF (F64.lit 0.5) = sf_half.
Proof. vm_compute. reflexivity. Qed.

Lemma Prim2SF_zero : Prim2SF (F64.of_int 0) = S754_zero false.
Proof. vm_compute. reflexivity. Qed.

(** [t <= 0.5] gives [0.5 <= 1 - t]. *)
Lemma sub_one_ge_half (t : float) :
  PrimFloat.leb t (F64.lit 0.5) = true ->
  PrimFloat.leb (F64.lit 0.5) (PrimFloat.sub (F64.of_int 1) t) = true.
Proof.
  rewrite !FloatAxioms.leb_spec, FloatAxioms.sub_spec.
  rewrite Prim2SF_one, Prim2SF_half.
  apply SF_sub_one_ge_half. apply FloatAxioms.Prim2SF_valid.
Qed.

(** [0.5 < t] gives [1 - t <= 0.5]. *)
Lemma sub_one_le_half (t : float) :
  PrimFloat.ltb (F64.lit 0.5) t = true ->
  PrimFloat.leb (PrimFloat.sub (F64.of_int 1) t) (F64.lit 0.5) = true.
Proof.
  intros H.
  pose proof (ltb_leb _ _ H) as H1. pose proof (ltb_not_leb _ _ H) as H2.
  revert H1 H2.
  rewrite !FloatAxioms.leb_spec, FloatAxioms.sub_spec.
  rewrite Prim2SF_one, Prim2SF_half. intros H1 H2.
  apply SF_sub_one_le_half;
    [apply FloatAxioms.Prim2SF_valid | exact H2 | exact H1].
Qed.



(** ** Monotonicity of the binary64 operations *)

Lemma Prim2SF_lit_one : Prim2SF (F64.lit 1.0) = sf_one.
Proof. vm_compute. reflexivity. Qed.

Lemma not_nan_Prim2SF (x : float) :
  PrimFloat.is_nan x = false -> Prim2SF x <> S754_nan.
Proof. intros H E. apply is_nan_Prim2SF in E. congruence. Qed.

(** [c >= 1] and [a > 0] give [a <= c * a]. *)
Lemma mul_ge (c a : float) :
  PrimFloat.leb (F64.of_int 1) c = true ->
  PrimFloat.ltb (F64.of_int 0) a = true ->
  PrimFloat.leb a (PrimFloat.mul c a) = true.
Proof.
  rewrite !FloatAxioms.leb_spec, FloatAxioms.ltb_spec, FloatAxioms.mul_spec.
  rewrite Prim2SF_one, Prim2SF_zero.
  apply SF_mul_ge; apply FloatAxioms.Prim2SF_valid.
Qed.

(** [a > 0] gives [1.0 * a <= a]. *)
Lemma mul_one_le (a : float) :
  PrimFloat.ltb (F64.of_int 0) a = true ->
  PrimFloat.leb (PrimFloat.mul (F64.lit 1.0) a) a = true.
Proof.
  rewrite FloatAxioms.leb_spec, FloatAxioms.ltb_spec, FloatAxioms.mul_spec.
  rewrite Prim2SF_lit_one, Prim2SF_zero.
  apply SF_mul_one_le. apply FloatAxioms.Prim2SF_valid.
Qed.

(** For [0 < y <= y'], [x + y <= x + y'] unless the larger sum is NaN. *)
Lemma add_le (x y y' : float) :
  PrimFloat.ltb (F64.of_int 0) y = true ->
  PrimFloat.leb y y' = true ->
  PrimFloat.is_nan (PrimFloat.add x y') = false ->
  PrimFloat.leb (PrimFloat.add x y) (PrimFloat.add x y') = true.
Proof.
  intros H0 Hle Hn. apply not_nan_Prim2SF in Hn. revert H0 Hle Hn.
  rewrite !FloatAxioms.leb_spec, FloatAxioms.ltb_spec, !FloatAxioms.add_spec.
  rewrite Prim2SF_zero.
  apply SF_add_le; apply FloatAxioms.Prim2SF_valid.
Qed.

(** For [0 < y <= y'], [x - y' <= x - y] unless the smaller difference
    is NaN. *)
Lemma sub_le (x y y' : float) :
  PrimFloat.ltb (F64.of_int 0) y = true ->
  PrimFloat.leb y y' = true ->
  PrimFloat.is_nan (PrimFloat.sub x y') = false ->
  PrimFloat.leb (PrimFloat.sub x y') (PrimFloat.sub x y) = true.
Proof.
  intros H0 Hle Hn. apply not_nan_Prim2SF in Hn. revert H0 Hle Hn.
  rewrite !FloatAxioms.leb_spec, FloatAxioms.ltb_spec, !FloatAxioms.sub_spec.
  rewrite Prim2SF_zero.
  apply SF_sub_le; apply FloatAxioms.Prim2SF_valid.
Qed.

(** ** The forward scan *)

Section ScanFacts.

Context {T : Type} {N : Num T}.
Variable df : list (Bar T).
Variables tpl sll tps sls : T.

Lemma or_else_assoc (a b c : hit) :
  or_else a (or_else b c) = or_else (or_else a b) c.
Proof. destruct a; reflexivity. Qed.

Lemma or_else_some (a b : hit) : is_some a = true -> or_else a b = a.
Proof. destruct a; [reflexivity | discriminate]. Qed.

Lemma check_long_eq (j : nat) (b : Bar T) (hl : hit) :
  nth_error df j = Some b ->
  check_long df tpl sll j hl =
  Some (or_else hl (hit_of j (Spec.long_touch tpl sll b))).
Proof.
  intros Hb. unfold check_long, col, Spec.long_touch. rewrite Hb. simpl.
  destruct hl as [p |]; [reflexivity |]. simpl.
  destruct (fle tpl (high b)); [reflexivity |].
  destruct (fle (low b) sll); reflexivity.
Qed.

Lemma check_short_eq (j : nat) (b : Bar T) (hs : hit) :
  nth_error df j = Some b ->
  check_short df tps sls j hs =
  Some (or_else hs (hit_of j (Spec.short_touch tps sls b))).
Proof.
  intros Hb. unfold check_short, col, Spec.short_touch. rewrite Hb. simpl.
  destruct hs as [p |]; [reflexivity |]. simpl.
  destruct (fle (low b) tps); [reflexivity |].
  destruct (fle sls (high b)); reflexivity.
Qed.

(** The loop, with its early exit, finds for each hypothesis the first
    index of [js] that touches one of its barriers, and reads no bar
    outside [js]. *)
Lemma scan_find (js : list nat) :
  (forall j, In j js -> (j < List.length df)%nat) ->
  forall hl hs,
    scan df tpl sll tps sls js hl hs =
    Some (or_else hl (find_touch (Spec.touch_at (Spec.long_touch tpl sll) df) js),
          or_else hs (find_touch (Spec.touch_at (Spec.short_touch tps sls) df) js)).
Proof.
  induction js as [| j js IH]; intros Hin hl hs.
  - simpl. destruct hl, hs; reflexivity.
  - assert (Hj : (j < List.length df)%nat) by (apply Hin; left; reflexivity).
    destruct (nth_error df j) as [b |] eqn:Hb;
      [| apply nth_error_None in Hb; lia].
    simpl scan. rewrite (check_long_eq j b hl Hb), (check_short_eq j b hs Hb).
    simpl bind. simpl find_touch. unfold Spec.touch_at at 1 3.
    rewrite Hb. simpl bind. rewrite !or_else_assoc.
    destruct (is_some (or_else hl (hit_of j (Spec.long_touch tpl sll b))) &&
              is_some (or_else hs (hit_of j (Spec.short_touch tps sls b))))
      eqn:Hboth.
    + apply andb_true_iff in Hboth. destruct Hboth as [H1 H2].
      rewrite (or_else_some _ _ H1), (or_else_some _ _ H2). reflexivity.
    + apply IH. intros j' Hj'. apply Hin. right. exact Hj'.
Qed.

End ScanFacts.

Section WindowFacts.

Lemma window_end_le (i : nat) (h : Z) (n : nat) : (window_end i h n <= n)%nat.
Proof. unfold window_end. lia. Qed.

(** The window is the interval from [i+1] to [min(i+h, n-1)]. *)
Lemma in_window (i : nat) (h : Z) (n j : nat) :
  In j (window i h n) <->
  (Z.of_nat i + 1 <= Z.of_nat j <= Z.min (Z.of_nat i + h) (Z.of_nat n - 1))%Z.
Proof.
  unfold window, range, window_end. rewrite in_seq. lia.
Qed.

Lemma window_in_range (i : nat) (h : Z) (n j : nat) :
  In j (window i h n) -> (j < n)%nat.
Proof. rewrite in_window. lia. Qed.

Lemma window_seq (i : nat) (h : Z) (n : nat) :
  window i h n = seq (S i) (window_end i h n - S i).
Proof. reflexivity. Qed.

(** On an increasing run of indices, the first in list order is the
    least. *)
Lemma find_touch_first (touch : nat -> option kind) (len a : nat) :
  Spec.first_touch touch (seq a len) (find_touch touch (seq a len)).
Proof.
  revert a. induction len as [| len IH]; intros a.
  - simpl. intros j [].
  - simpl seq. simpl find_touch.
    destruct (touch a) as [k |] eqn:Ha; simpl.
    + split; [left; reflexivity |]. split; [exact Ha |].
      intros j' [<- | Hin] Hlt; [lia |]. apply in_seq in Hin. lia.
    + specialize (IH (S a)).
      destruct (find_touch touch (seq (S a) len)) as [[j k] |]; simpl in *.
      * destruct IH as (Hin & Hk & Hfirst). split; [right; exact Hin |].
        split; [exact Hk |].
        intros j' [<- | Hin'] Hlt; [exact Ha | apply Hfirst; assumption].
      * intros j [<- | Hin]; [exact Ha | apply IH; exact Hin].
Qed.

(** An outcome that is the first touch of a window is determined by it. *)
Lemma first_touch_unique (touch : nat -> option kind) (w : list nat)
    (h h' : hit) :
  Spec.first_touch touch w h -> Spec.first_touch touch w h' -> h = h'.
Proof.
  destruct h as [[j k] |], h' as [[j' k'] |]; simpl.
  - intros (Hin & Hk & Hf) (Hin' & Hk' & Hf').
    assert (j = j').
    { destruct (Nat.lt_trichotomy j j') as [Hlt | [Heq | Hgt]].
      - specialize (Hf' j Hin Hlt). congruence.
      - exact Heq.
      - specialize (Hf j' Hin' Hgt). congruence. }
    subst j'. congruence.
  - intros (Hin & Hk & _) Hnone. specialize (Hnone j Hin). congruence.
  - intros Hnone (Hin & Hk & _). specialize (Hnone j' Hin). congruence.
  - reflexivity.
Qed.

End WindowFacts.

Section LabelFacts.

Context {T : Type} {N : Num T}.

(** The scan reads only the bars whose indices it is given. *)
Lemma scan_ext (df df' : list (Bar T)) (tpl sll tps sls : T) (js : list nat) :
  (forall j, In j js -> nth_error df' j = nth_error df j) ->
  forall hl hs,
    scan df' tpl sll tps sls js hl hs = scan df tpl sll tps sls js hl hs.
Proof.
  induction js as [| j js IH]; intros Hagree hl hs; [reflexivity |].
  simpl. unfold check_long, check_short, col.
  rewrite (Hagree j (or_introl eq_refl)).
  destruct (check_long df tpl sll j hl) as [hl' |] eqn:El;
    unfold check_long, col in El; rewrite El; [| reflexivity].
  simpl.
  destruct (check_short df tps sls j hs) as [hs' |] eqn:Es;
    unfold check_short, col in Es; rewrite Es; [| reflexivity].
  simpl. destruct (is_some hl' && is_some hs'); [reflexivity |].
  apply IH. intros j' Hj'. apply Hagree. right. exact Hj'.
Qed.

Lemma find_touch_none (touch : nat -> option kind) (js : list nat) :
  (forall j, In j js -> touch j = None) -> find_touch touch js = None.
Proof.
  induction js as [| j js IH]; intros Hnone; [reflexivity |].
  simpl. rewrite (Hnone j (or_introl eq_refl)). simpl.
  apply IH. intros j' Hj'. apply Hnone. right. exact Hj'.
Qed.

Lemma window_empty (i : nat) (h : Z) (n : nat) :
  (n <= S i)%nat -> window i h n = [].
Proof.
  intros Hn. unfold window, range.
  pose proof (window_end_le i h n).
  replace (window_end i h n - S i)%nat with 0%nat by lia. reflexivity.
Qed.

(** The scan of bar [i]'s window with the barriers of bar [b]. *)
Lemma scan_window (df : list (Bar T)) (i : nat) (h : Z) (tpl sll tps sls : T) :
  scan df tpl sll tps sls (window i h (List.length df)) None None =
  Some (find_touch (Spec.touch_at (Spec.long_touch tpl sll) df)
          (window i h (List.length df)),
        find_touch (Spec.touch_at (Spec.short_touch tps sls) df)
          (window i h (List.length df))).
Proof.
  rewrite scan_find; [reflexivity |].
  intros j Hj. exact (window_in_range _ _ _ _ Hj).
Qed.

(** The label of a bar with an ATR: the resolution of the two first
    touches in its window. *)
Lemma label_at_eq (df : list (Bar T)) (i : nat) (b : Bar T) (h : Z) :
  nth_error df i = Some b ->
  atr_missing (atr b) = false ->
  horizon (current_vol_ratio (vol_ratio b)) = Some h ->
  label_at df i =
  Some (resolve
          (find_touch (long_touch_of df b) (window i h (List.length df)))
          (find_touch (short_touch_of df b) (window i h (List.length df)))).
Proof.
  intros Hb Hatr Hh. unfold label_at. rewrite Hb. simpl bind.
  rewrite Hatr, Hh. simpl bind.
  destruct (List.length df <=? S i)%nat eqn:Hn.
  - apply Nat.leb_le in Hn. rewrite (window_empty i h _ Hn). reflexivity.
  - fold (window i h (List.length df)). rewrite scan_window. reflexivity.
Qed.

(** A bar without an ATR gets label 0 before anything else is read. *)
Lemma label_at_skip (df : list (Bar T)) (i : nat) (b : Bar T) :
  nth_error df i = Some b ->
  atr_missing (atr b) = true ->
  label_at df i = Some 0%Z.
Proof.
  intros Hb Hatr. unfold label_at. rewrite Hb. simpl bind.
  rewrite Hatr. reflexivity.
Qed.

End LabelFacts.

(** ** The claims about the forward scan and the resolver *)

(** C2.  For an entry bar [i] with an ATR and selected horizon [h], the
    scan of [labeling.py] runs over the indices [i+1 .. min(i+h, n-1)]
    in increasing order (the list [range(start, end)] of lines 105-117),
    completes without an out-of-range read, and returns for the long and
    for the short hypothesis, independently, the first bar of that window
    touching one of its barriers together with the barrier's kind, or no
    hit when no bar of the window touches one; the label is the
    resolution of these two outcomes.  The scan's result is the same on
    any series that agrees with [df] on the window, whatever its entry
    bar and whatever lies past the window. *)
Theorem C2_forward_scan_window {T : Type} {N : Num T}
    (df : list (Bar T)) (i : nat) (b : Bar T) (h : Z) :
  nth_error df i = Some b ->
  atr_missing (atr b) = false ->
  horizon (current_vol_ratio (vol_ratio b)) = Some h ->
  let n := List.length df in
  let w := range (S i) (window_end i h n) in
  let tpl := tp_long (close b) (bar_tp_mult b) (atr b) in
  let sll := sl_long (close b) sl_mult (atr b) in
  let tps := tp_short (close b) (bar_tp_mult b) (atr b) in
  let sls := sl_short (close b) sl_mult (atr b) in
  (forall j, In j w <->
     (Z.of_nat i + 1 <= Z.of_nat j
      <= Z.min (Z.of_nat i + h) (Z.of_nat n - 1))%Z) /\
  w = seq (S i) (List.length w) /\
  (exists hl hs : hit,
     scan df tpl sll tps sls w None None = Some (hl, hs) /\
     Spec.first_touch (Spec.touch_at (Spec.long_touch tpl sll) df) w hl /\
     Spec.first_touch (Spec.touch_at (Spec.short_touch tps sls) df) w hs /\
     label_at df i = Some (resolve hl hs)) /\
  (forall df' : list (Bar T),
     (forall j, In j w -> nth_error df' j = nth_error df j) ->
     scan df' tpl sll tps sls w None None =
     scan df tpl sll tps sls w None None).
Proof.
  intros Hb Hatr Hh n w tpl sll tps sls.
  change w with (window i h n).
  split; [intros j; apply in_window |].
  split; [rewrite window_seq, length_seq; reflexivity |].
  split.
  - exists (find_touch (Spec.touch_at (Spec.long_touch tpl sll) df) (window i h n)),
           (find_touch (Spec.touch_at (Spec.short_touch tps sls) df) (window i h n)).
    split; [apply scan_window |].
    split; [rewrite window_seq; apply find_touch_first |].
    split; [rewrite window_seq; apply find_touch_first |].
    exact (label_at_eq df i b h Hb Hatr Hh).
  - intros df' Hagree. apply scan_ext. exact Hagree.
Qed.

(** The first bar of [Ex.rising]: horizon 10, window [1; 2]. *)
Lemma C2_forward_scan_window_witness :
  exists hl hs : hit,
    label_at Ex.rising 0 = Some (resolve hl hs) /\
    In 2%nat (range 1 (window_end 0 10 (List.length Ex.rising))).
Proof.
  assert (Hb : nth_error Ex.rising 0 = Some Ex.row) by reflexivity.
  assert (Hatr : atr_missing (atr Ex.row) = false) by (vm_compute; reflexivity).
  assert (Hh : horizon (current_vol_ratio (vol_ratio Ex.row)) = Some 10%Z)
    by (vm_compute; reflexivity).
  destruct (C2_forward_scan_window Ex.rising 0 Ex.row 10 Hb Hatr Hh)
    as (Hw & _ & (hl & hs & _ & _ & _ & Hl) & _).
  exists hl, hs. split; [exact Hl |].
  apply Hw. vm_compute. split; intros E; discriminate E.
Defined.

(** C5.  Same-bar tie-break.  Let [j] be a bar of the scan window at
    which both the long take-profit condition [high >= tp_long] and the
    long stop-loss condition [low <= sl_long] hold.  Then the long
    outcome is never a stop-loss at [j], and when no earlier bar of the
    window has touched either long barrier, the long outcome is the
    take-profit hit at [j].  The same holds for the short hypothesis
    with [low <= tp_short] and [high >= sl_short]. *)
Theorem C5_same_bar_tie_break {T : Type} {N : Num T}
    (df : list (Bar T)) (i : nat) (h : Z) (tpl sll tps sls : T)
    (hl hs : hit) :
  let w := range (S i) (window_end i h (List.length df)) in
  scan df tpl sll tps sls w None None = Some (hl, hs) ->
  (forall j b, In j w -> nth_error df j = Some b ->
     (high b >=? tpl)%num = true -> (low b <=? sll)%num = true ->
     hl <> Some (j, SL) /\
     ((forall j' b', In j' w -> (j' < j)%nat -> nth_error df j' = Some b' ->
         (high b' >=? tpl)%num = false /\ (low b' <=? sll)%num = false) ->
      hl = Some (j, TP))) /\
  (forall j b, In j w -> nth_error df j = Some b ->
     (low b <=? tps)%num = true -> (high b >=? sls)%num = true ->
     hs <> Some (j, SL) /\
     ((forall j' b', In j' w -> (j' < j)%nat -> nth_error df j' = Some b' ->
         (low b' <=? tps)%num = false /\ (high b' >=? sls)%num = false) ->
      hs = Some (j, TP))).
Proof.
  intros w Hscan. change w with (window i h (List.length df)) in *.
  rewrite scan_window in Hscan. injection Hscan as Hl Hs.
  pose proof (find_touch_first (Spec.touch_at (Spec.long_touch tpl sll) df)
                (window_end i h (List.length df) - S i) (S i)) as Fl.
  pose proof (find_touch_first (Spec.touch_at (Spec.short_touch tps sls) df)
                (window_end i h (List.length df) - S i) (S i)) as Fs.
  rewrite <- window_seq in Fl, Fs. rewrite Hl in Fl. rewrite Hs in Fs.
  split; intros j b Hj Hb Htp Hsl.
  - assert (Ht : Spec.touch_at (Spec.long_touch tpl sll) df j = Some TP).
    { unfold Spec.touch_at, Spec.long_touch. rewrite Hb. simpl.
      rewrite Htp. reflexivity. }
    split.
    + intros E. rewrite E in Fl. simpl in Fl.
      destruct Fl as (_ & Hk & _). congruence.
    + intros Hearlier.
      apply (first_touch_unique _ _ _ _ Fl). simpl.
      split; [exact Hj |]. split; [exact Ht |].
      intros j' Hj' Hlt. unfold Spec.touch_at, Spec.long_touch.
      destruct (nth_error df j') as [b' |] eqn:Hb'; [| reflexivity].
      destruct (Hearlier j' b' Hj' Hlt Hb') as [E1 E2].
      simpl. rewrite E1, E2. reflexivity.
  - assert (Ht : Spec.touch_at (Spec.short_touch tps sls) df j = Some TP).
    { unfold Spec.touch_at, Spec.short_touch. rewrite Hb. simpl.
      rewrite Htp. reflexivity. }
    split.
    + intros E. rewrite E in Fs. simpl in Fs.
      destruct Fs as (_ & Hk & _). congruence.
    + intros Hearlier.
      apply (first_touch_unique _ _ _ _ Fs). simpl.
      split; [exact Hj |]. split; [exact Ht |].
      intros j' Hj' Hlt. unfold Spec.touch_at, Spec.short_touch.
      destruct (nth_error df j') as [b' |] eqn:Hb'; [| reflexivity].
      destruct (Hearlier j' b' Hj' Hlt Hb') as [E1 E2].
      simpl. rewrite E1, E2. reflexivity.
Qed.

(** In [Ex.wide] the bar after the entry spans both long barriers: the
    long outcome is the take-profit hit at bar 1. *)
Lemma C5_same_bar_tie_break_witness :
  scan Ex.wide
    (tp_long (close Ex.row) (bar_tp_mult Ex.row) (atr Ex.row))
    (sl_long (close Ex.row) sl_mult (atr Ex.row))
    (tp_short (close Ex.row) (bar_tp_mult Ex.row) (atr Ex.row))
    (sl_short (close Ex.row) sl_mult (atr Ex.row))
    (range 1 (window_end 0 10 (List.length Ex.wide))) None None =
  Some (Some (1%nat, TP), Some (1%nat, TP)) /\
  (Some (1%nat, TP) : hit) <> Some (1%nat, SL).
Proof.
  assert (Hscan :
    scan Ex.wide
      (tp_long (close Ex.row) (bar_tp_mult Ex.row) (atr Ex.row))
      (sl_long (close Ex.row) sl_mult (atr Ex.row))
      (tp_short (close Ex.row) (bar_tp_mult Ex.row) (atr Ex.row))
      (sl_short (close Ex.row) sl_mult (atr Ex.row))
      (range 1 (window_end 0 10 (List.length Ex.wide))) None None =
    Some (Some (1%nat, TP), Some (1%nat, TP))) by (vm_compute; reflexivity).
  split; [exact Hscan |].
  refine (proj1 (proj1 (C5_same_bar_tie_break Ex.wide 0 10 _ _ _ _ _ _ Hscan)
                   1%nat (Ex.bar 1.1 1.2 1.0 0.005 1 10) _ _ _ _)).
  - vm_compute. left. reflexivity.
  - reflexivity.
  - vm_compute. reflexivity.
  - vm_compute. reflexivity.
Defined.

(** C6.  The label is +1 when the long score exceeds the short score,
    -1 when the short score exceeds the long score and 0 when they are
    equal, the score of an outcome being +1 for a take-profit hit, -1
    for a stop-loss hit and 0 for no hit.  In particular a bar in whose
    window no bar reaches any of the four barriers gets label 0. *)
Theorem C6_label_resolver {T : Type} {N : Num T} :
  (forall hl hs : hit,
     resolve hl hs = Spec.label_of_scores (Spec.score hl) (Spec.score hs) /\
     ((Spec.score hs < Spec.score hl)%Z -> resolve hl hs = 1%Z) /\
     ((Spec.score hl < Spec.score hs)%Z -> resolve hl hs = (-1)%Z) /\
     (Spec.score hl = Spec.score hs -> resolve hl hs = 0%Z)) /\
  (forall (df : list (Bar T)) (i : nat) (b : Bar T) (h : Z),
     nth_error df i = Some b ->
     horizon (current_vol_ratio (vol_ratio b)) = Some h ->
     (forall j b',
        In j (range (S i) (window_end i h (List.length df))) ->
        nth_error df j = Some b' ->
        (high b' >=? tp_long (close b) (bar_tp_mult b) (atr b))%num = false /\
        (low b' <=? sl_long (close b) sl_mult (atr b))%num = false /\
        (low b' <=? tp_short (close b) (bar_tp_mult b) (atr b))%num = false /\
        (high b' >=? sl_short (close b) sl_mult (atr b))%num = false) ->
     label_at df i = Some 0%Z).
Proof.
  split.
  - intros hl hs.
    destruct hl as [[jl [|]] |], hs as [[js [|]] |];
      (split; [reflexivity |]);
      cbn; repeat split; intros; try reflexivity; lia || discriminate.
  - intros df i b h Hb Hh Hflat.
    destruct (atr_missing (atr b)) eqn:Hatr.
    + exact (label_at_skip df i b Hb Hatr).
    + rewrite (label_at_eq df i b h Hb Hatr Hh).
      fold (window i h (List.length df)) in Hflat.
      rewrite !find_touch_none; [reflexivity | |].
      * intros j Hj. unfold short_touch_of, Spec.touch_at, Spec.short_touch.
        destruct (nth_error df j) as [b' |] eqn:Hb'; [| reflexivity].
        destruct (Hflat j b' Hj Hb') as (_ & _ & E3 & E4).
        simpl. rewrite E3, E4. reflexivity.
      * intros j Hj. unfold long_touch_of, Spec.touch_at, Spec.long_touch.
        destruct (nth_error df j) as [b' |] eqn:Hb'; [| reflexivity].
        destruct (Hflat j b' Hj Hb') as (E1 & E2 & _ & _).
        simpl. rewrite E1, E2. reflexivity.
Qed.

(** The first bar of the flat series [Ex.flat] gets label 0. *)
Lemma C6_label_resolver_witness : label_at Ex.flat 0 = Some 0%Z.
Proof.
  refine (proj2 C6_label_resolver Ex.flat 0%nat
            (Ex.bar 1.1 1.101 1.099 0.005 1 10) 10%Z _ _ _).
  - reflexivity.
  - vm_compute. reflexivity.
  - intros j b' Hj Hb'. vm_compute in Hj.
    destruct Hj as [<- | [<- | []]]; injection Hb' as <-;
      vm_compute; repeat split; reflexivity.
Defined.

(** ** The signal decision *)

Section SignalFacts.

Context {T : Type} {N : Num T}.
Local Open Scope num_scope.

(** What a row's signal is, when there is one. *)
Lemma signal_for_row_inv (t : T) (row : Bar T) (p : T) (s : Signal.t T) :
  signal_for_row t row p = Some s ->
  atr_missing (atr row) = false /\
  (((p >=? t) = true /\
    s = Signal.mk (time row) (symbol row) LONG p p (close row)
          (close row + TP_ATR_MULT * atr row)
          (close row - SL_ATR_MULT * atr row)
          (atr row) (TP_ATR_MULT / SL_ATR_MULT)) \/
   ((p >=? t) = false /\ (p <=? of_int 1 - t) = true /\
    s = Signal.mk (time row) (symbol row) SHORT (of_int 1 - p) p (close row)
          (close row - TP_ATR_MULT * atr row)
          (close row + SL_ATR_MULT * atr row)
          (atr row) (TP_ATR_MULT / SL_ATR_MULT))).
Proof.
  unfold signal_for_row, decide.
  destruct (p >=? t) eqn:E1.
  - destruct (atr_missing (atr row)); [discriminate |].
    simpl. intros H. injection H as <-. split; [reflexivity |].
    left. split; reflexivity.
  - destruct (p <=? of_int 1 - t) eqn:E2; [| discriminate].
    destruct (atr_missing (atr row)); [discriminate |].
    simpl. intros H. injection H as <-. split; [reflexivity |].
    right. repeat split; reflexivity.
Qed.

Lemma in_signals_for_rows (t : T) (rows : list (Bar T * T)) (s : Signal.t T) :
  In s (signals_for_rows t rows) ->
  exists row p, In (row, p) rows /\ signal_for_row t row p = Some s.
Proof.
  induction rows as [| [row p] rows IH]; simpl; [intros [] |].
  destruct (signal_for_row t row p) as [s' |] eqn:E.
  - intros [<- | Hin].
    + exists row, p. split; [left; reflexivity | exact E].
    + destruct (IH Hin) as (row' & p' & Hin' & E').
      exists row', p'. split; [right; exact Hin' | exact E'].
  - intros Hin. destruct (IH Hin) as (row' & p' & Hin' & E').
    exists row', p'. split; [right; exact Hin' | exact E'].
Qed.


End SignalFacts.

(** C4.  For a row with an ATR: when [p >= t] the decision is LONG with
    confidence [p], target [entry + TP_ATR_MULT*atr] and stop
    [entry - SL_ATR_MULT*atr]; otherwise, when [p <= 1 - t], it is SHORT
    with confidence [1 - p], target [entry - TP_ATR_MULT*atr] and stop
    [entry + SL_ATR_MULT*atr]; otherwise it is NONE and no signal is
    emitted.  Every emitted signal carries the risk-reward ratio
    [TP_ATR_MULT / SL_ATR_MULT], whatever its direction. *)
Theorem C4_signal_decision {T : Type} {N : Num T} (t p : T) (row : Bar T) :
  atr_missing (atr row) = false ->
  ((p >=? t)%num = true ->
     decide p t = (LONG, p) /\
     signal_for_row t row p =
     Some (Signal.mk (time row) (symbol row) LONG p p (close row)
             (close row + TP_ATR_MULT * atr row)%num
             (close row - SL_ATR_MULT * atr row)%num
             (atr row) (TP_ATR_MULT / SL_ATR_MULT)%num)) /\
  ((p >=? t)%num = false -> (p <=? of_int 1 - t)%num = true ->
     decide p t = (SHORT, (of_int 1 - p)%num) /\
     signal_for_row t row p =
     Some (Signal.mk (time row) (symbol row) SHORT (of_int 1 - p)%num p
             (close row)
             (close row - TP_ATR_MULT * atr row)%num
             (close row + SL_ATR_MULT * atr row)%num
             (atr row) (TP_ATR_MULT / SL_ATR_MULT)%num)) /\
  ((p >=? t)%num = false -> (p <=? of_int 1 - t)%num = false ->
     fst (decide p t) = NONE /\ signal_for_row t row p = None) /\
  (forall s, signal_for_row t row p = Some s ->
     Signal.risk_reward_ratio s = (TP_ATR_MULT / SL_ATR_MULT)%num).
Proof.
  intros Hatr. split; [| split; [| split]].
  - intros Hge. unfold signal_for_row, decide. rewrite Hge, Hatr.
    split; reflexivity.
  - intros Hge Hle. unfold signal_for_row, decide. rewrite Hge, Hle, Hatr.
    split; reflexivity.
  - intros Hge Hle. unfold signal_for_row, decide. rewrite Hge, Hle.
    split; reflexivity.
  - intros s Hs. destruct (signal_for_row_inv t row p s Hs)
      as (_ & [(_ & ->) | (_ & _ & ->)]); reflexivity.
Qed.

(** Probability 0.82 against the threshold 0.7: a LONG signal with
    confidence 0.82. *)
Lemma C4_signal_decision_witness :
  decide (T := float) (lit 0.82) (lit 0.7) = (LONG, lit 0.82).
Proof.
  refine (proj1 (proj1 (C4_signal_decision (lit 0.7) (lit 0.82) Ex.row _) _)).
  - vm_compute. reflexivity.
  - vm_compute. reflexivity.
Defined.




(** ** Barrier parameters *)

(** C1 (as stated) fails: for a trending bar (trend strength 35,
    volatility ratio 1) labeling takes the take-profit multiple 2.5,
    signal generation the configured 1.8, and the long targets for entry
    1.1 and ATR 0.005 differ. *)
Lemma C1_train_serve_counterexample :
  tp_mult (T := float) (current_trend (lit 35)) (current_vol_ratio (lit 1))
    <> TP_ATR_MULT /\
  tp_long (T := float) (lit 1.1)
    (tp_mult (current_trend (lit 35)) (current_vol_ratio (lit 1))) (lit 0.005)
    <> fst (levels LONG (lit 1.1) (lit 0.005)).
Proof.
  split; intros E.
  - apply (f_equal (fun x => PrimFloat.eqb x TP_ATR_MULT)) in E.
    vm_compute in E. discriminate E.
  - apply (f_equal
             (fun x => PrimFloat.eqb x (fst (levels LONG (lit 1.1) (lit 0.005)))))
      in E.
    vm_compute in E. discriminate E.
Qed.

(** C1 (amended).  The stop-loss multiple and the stop prices of
    labeling and of signal generation agree for every bar.  The
    take-profit multiples agree exactly when labeling falls through to
    the configured default, that is when the trend strength (NaN read as
    0) is not above 30 and the volatility ratio (NaN read as 1) is not
    below 0.8, and then the target prices agree too; otherwise labeling
    takes 2.5 (trend above 30) or 1.5 (volatility ratio below 0.8) while
    signal generation always takes the configured [TP_ATR_MULT]. *)
Theorem C1_barrier_parameters_train_serve :
  (forall (T : Type) (N : Num T) (vol trend entry a : T),
     let tpm := tp_mult (current_trend trend) (current_vol_ratio vol) in
     (sl_mult = SL_ATR_MULT /\
      sl_long entry sl_mult a = snd (levels LONG entry a) /\
      sl_short entry sl_mult a = snd (levels SHORT entry a)) /\
     ((current_trend trend >? of_int 30)%num = false ->
      (current_vol_ratio vol <? lit 0.8)%num = false ->
      tpm = TP_ATR_MULT /\
      tp_long entry tpm a = fst (levels LONG entry a) /\
      tp_short entry tpm a = fst (levels SHORT entry a)) /\
     ((current_trend trend >? of_int 30)%num = true -> tpm = lit 2.5) /\
     ((current_trend trend >? of_int 30)%num = false ->
      (current_vol_ratio vol <? lit 0.8)%num = true -> tpm = lit 1.5)) /\
  (forall vol trend : float,
     tp_mult (current_trend trend) (current_vol_ratio vol) = TP_ATR_MULT <->
     (current_trend trend >? of_int 30)%num = false /\
     (current_vol_ratio vol <? lit 0.8)%num = false).
Proof.
  split.
  - intros T N vol trend entry a tpm. unfold tpm, tp_mult.
    split; [repeat split |]. split; [| split].
    + intros H1 H2. rewrite H1, H2. repeat split.
    + intros H1. rewrite H1. reflexivity.
    + intros H1 H2. rewrite H1, H2. reflexivity.
  - intros vol trend. unfold tp_mult.
    destruct (current_trend trend >? of_int 30)%num.
    + split; [intros E | intros [E _]; discriminate E].
      apply (f_equal (fun x => PrimFloat.eqb x TP_ATR_MULT)) in E.
      vm_compute in E. discriminate E.
    + destruct (current_vol_ratio vol <? lit 0.8)%num.
      * split; [intros E | intros [_ E]; discriminate E].
        apply (f_equal (fun x => PrimFloat.eqb x TP_ATR_MULT)) in E.
        vm_compute in E. discriminate E.
      * split; [intros _; split; reflexivity | intros _; reflexivity].
Qed.

(** A quiet bar (trend strength 10, volatility ratio 1): both sides use
    the configured take-profit multiple. *)
Lemma C1_barrier_parameters_train_serve_witness :
  tp_mult (T := float) (current_trend (lit 10)) (current_vol_ratio (lit 1))
  = TP_ATR_MULT.
Proof.
  refine (proj2 (proj2 C1_barrier_parameters_train_serve (lit 1) (lit 10)) _).
  split; vm_compute; reflexivity.
Defined.

(** The horizon of lines 95-102 for a binary64 volatility ratio: the
    three truncations are 5, 7 and 13. *)
Lemma horizon_float (v : float) :
  horizon v =
  Some (if (v >? lit 1.5)%num then 5
        else if (v >? lit 1.2)%num then 7
        else if (v <? lit 0.8)%num then 13
        else 10)%Z.
Proof.
  unfold horizon.
  destruct (v >? lit 1.5)%num; [vm_compute; reflexivity |].
  destruct (v >? lit 1.2)%num; [vm_compute; reflexivity |].
  destruct (v <? lit 0.8)%num; [vm_compute; reflexivity |].
  reflexivity.
Qed.

(** The horizon the specification's sentence gives for baseline 10 and
    floor 3: the three roundings are 5, 7 and 13 as well. *)
Lemma select_horizon_float (v : float) :
  Spec.select_horizon 10 3 v =
  Some (if (v >? lit 1.5)%num then 5
        else if (v >? lit 1.2)%num then 7
        else if (v <? lit 0.8)%num then 13
        else 10)%Z.
Proof.
  unfold Spec.select_horizon.
  destruct (v >? lit 1.5)%num; [vm_compute; reflexivity |].
  destruct (v >? lit 1.2)%num; [vm_compute; reflexivity |].
  destruct (v <? lit 0.8)%num; [vm_compute; reflexivity |].
  reflexivity.
Qed.

(** Replacing a NaN volatility ratio by 1.0 changes no comparison of
    lines 75-102. *)
Lemma current_vol_ratio_cmp (v : float) :
  (current_vol_ratio v >? lit 1.5)%num = (v >? lit 1.5)%num /\
  (current_vol_ratio v >? lit 1.2)%num = (v >? lit 1.2)%num /\
  (current_vol_ratio v <? lit 0.8)%num = (v <? lit 0.8)%num.
Proof.
  unfold current_vol_ratio. simpl isnan.
  destruct (PrimFloat.is_nan v) eqn:Hn; simpl negb; cbv iota.
  - simpl flt.
    rewrite !(ltb_nan_r _ v Hn), (ltb_nan_l v _ Hn).
    repeat split; vm_compute; reflexivity.
  - repeat split; reflexivity.
Qed.

(** Replacing a NaN trend strength by 0.0 does not change the
    comparison of line 75. *)
Lemma current_trend_cmp (s : float) :
  (current_trend s >? of_int 30)%num = (s >? of_int 30)%num.
Proof.
  unfold current_trend. simpl isnan.
  destruct (PrimFloat.is_nan s) eqn:Hn; simpl negb; cbv iota.
  - simpl flt. rewrite (ltb_nan_r _ s Hn). vm_compute. reflexivity.
  - reflexivity.
Qed.

(** C3.  For every pair of regime values (NaN included) the parameters
    [labeling.py] selects are: take-profit multiple 2.5 if the trend
    strength is above 30, else 1.5 if the volatility ratio is below 0.8,
    else the configured default 1.8; stop-loss multiple the configured
    default; horizon [max(3, round(10*0.5))] if the volatility ratio is
    above 1.5, else [max(3, round(10*0.7))] if it is above 1.2, else
    [min(round(10*1.3), 13)] if it is below 0.8, else 10, with the
    configured baseline 10 and floor 3.  The program truncates with
    [int] where the sentence rounds; on the binary64 products 5.0, 7.0
    and 13.0 the two agree, and the horizons are 5, 7, 13 and 10. *)
Theorem C3_selected_parameters (vol trend : float) :
  exists h : Z,
    Spec.select_horizon 10 3 vol = Some h /\
    selected_parameters vol trend =
      Some (Spec.take_profit_multiple vol trend, Spec.stop_loss_multiple, h) /\
    h = (if (vol >? lit 1.5)%num then 5
         else if (vol >? lit 1.2)%num then 7
         else if (vol <? lit 0.8)%num then 13
         else 10)%Z /\
    MAX_HORIZON_DAYS = 10%Z /\ MIN_HORIZON_DAYS = 3%Z /\
    TP_ATR_MULT (T := float) = lit 1.8 /\
    Spec.stop_loss_multiple = SL_ATR_MULT.
Proof.
  destruct (current_vol_ratio_cmp vol) as (V1 & V2 & V3).
  eexists. split; [apply select_horizon_float |].
  split; [| repeat split].
  unfold selected_parameters. rewrite horizon_float, V1, V2, V3.
  simpl bind. unfold tp_mult, Spec.take_profit_multiple.
  rewrite current_trend_cmp, V3. reflexivity.
Qed.

(** C9.  For every trend strength, the horizon selected at volatility
    ratio 1.6 is 5 and the horizon selected at volatility ratio 1.0 is
    10: raising the volatility ratio from 1.0 to 1.6 does not lengthen
    the horizon. *)
Theorem C9_horizon_monotone_in_volatility (trend : float) :
  exists h_hi h_lo : Z,
    option_map snd (selected_parameters (lit 1.6) trend) = Some h_hi /\
    option_map snd (selected_parameters (lit 1.0) trend) = Some h_lo /\
    h_hi = 5%Z /\ h_lo = 10%Z /\
    (h_hi <= h_lo)%Z.
Proof.
  assert (H16 : horizon (T := float) (current_vol_ratio (lit 1.6)) = Some 5%Z)
    by (vm_compute; reflexivity).
  assert (H10 : horizon (T := float) (current_vol_ratio (lit 1.0)) = Some 10%Z)
    by (vm_compute; reflexivity).
  unfold selected_parameters. rewrite H16, H10. simpl.
  exists 5%Z, 10%Z. repeat split. lia.
Qed.

(** ** Skipped bars *)

Section SkipFacts.

Context {T : Type} {N : Num T}.







End SkipFacts.








(** ** Configuration *)

(** C8 (as stated) fails: the threshold 0.4 is at most 0.5, yet
    [generate_signals] runs with it and emits a LONG signal for the
    probability 0.45. *)
Lemma C8_threshold_counterexample :
  (lit 0.4 <=? lit 0.5)%num = true /\
  generate_signals (T := float) (lit 0.4) [[(Ex.row, lit 0.45)]] <> [] /\
  option_map Signal.direction
    (signal_for_row (T := float) (lit 0.4) Ex.row (lit 0.45)) = Some LONG.
Proof.
  split; [vm_compute; reflexivity |].
  split; [| vm_compute; reflexivity].
  intros E. apply (f_equal (@List.length _)) in E.
  vm_compute in E. discriminate E.
Qed.

(** C8 (amended).  The constants of [config.py] are consistent (0.7 is
    above 0.5, 3 is at most 10), but nothing checks a threshold passed to
    [generate_signals]: a threshold of at most 0.5 is used as it is, the
    no-trade zone is then empty, and every row with an ATR and a
    probability that is not NaN gets a directional signal. *)
Theorem C8_no_configuration_check :
  ((CONFIDENCE_THRESHOLD (T := float) >? lit 0.5)%num = true /\
   (MIN_HORIZON_DAYS <= MAX_HORIZON_DAYS)%Z) /\
  (forall (t : float) (row : Bar float) (p : float),
     (t <=? lit 0.5)%num = true ->
     atr_missing (atr row) = false ->
     PrimFloat.is_nan p = false ->
     exists s, signal_for_row t row p = Some s /\
               Signal.direction s <> NONE).
Proof.
  split; [split; [vm_compute; reflexivity | unfold MIN_HORIZON_DAYS, MAX_HORIZON_DAYS; lia] |].
  intros t row p Ht Hatr Hp.
  change (PrimFloat.leb t (F64.lit 0.5) = true) in Ht.
  destruct (leb_not_nan _ _ Ht) as [Nt _].
  unfold signal_for_row, decide.
  destruct (p >=? t)%num eqn:E1.
  - rewrite Hatr. simpl. eexists. split; [reflexivity | discriminate].
  - assert (E2 : (p <=? of_int 1 - t)%num = true).
    { change (PrimFloat.leb t p = false) in E1.
      change (PrimFloat.leb p (PrimFloat.sub (F64.of_int 1) t) = true).
      destruct (leb_total t p Nt Hp) as [H | H]; [congruence |].
      apply leb_trans with t; [exact H |].
      apply leb_trans with (F64.lit 0.5); [exact Ht |].
      apply sub_one_ge_half. exact Ht. }
    rewrite E2, Hatr. simpl.
    eexists. split; [reflexivity | discriminate].
Qed.

(** Threshold 0.4 and probability 0.45: a signal is emitted. *)
Lemma C8_no_configuration_check_witness :
  exists s, signal_for_row (T := float) (lit 0.4) Ex.row (lit 0.45) = Some s /\
            Signal.direction s <> NONE.
Proof.
  refine (proj2 C8_no_configuration_check (lit 0.4) Ex.row (lit 0.45) _ _ _);
    vm_compute; reflexivity.
Defined.

(** ** Checks of the embedding on concrete values *)

(** The decimal literals of the two files are the binary64 numbers
    Python reads them as. *)
Example literals_binary64 :
  (lit 1.8 : float) = 0x1.ccccccccccccdp+0%float /\
  (lit 0.7 : float) = 0x1.6666666666666p-1%float /\
  (lit 0.8 : float) = 0x1.999999999999ap-1%float /\
  (lit 1.2 : float) = 0x1.3333333333333p+0%float /\
  (lit 1.3 : float) = 0x1.4cccccccccccdp+0%float /\
  (lit 1.5 : float) = 0x1.8p+0%float /\
  (lit 2.5 : float) = 0x1.4p+1%float /\
  (lit 0.5 : float) = 0x1p-1%float.
Proof. repeat split; reflexivity. Qed.

(** [int] truncates toward zero, [round] goes to the nearest integer
    with ties to even. *)
Example py_int_round_values :
  F64.py_int (lit 2.7) = Some 2%Z /\
  F64.py_int (lit (-2.7)) = Some (-2)%Z /\
  Spec.py_round (lit 2.7) = Some 3%Z /\
  Spec.py_round (lit 2.5) = Some 2%Z /\
  Spec.py_round (lit 3.5) = Some 4%Z /\
  Spec.py_round (lit (-2.7)) = Some (-3)%Z /\
  F64.py_int PrimFloat.nan = None /\
  F64.py_int PrimFloat.infinity = None.
Proof. repeat split; vm_compute; reflexivity. Qed.

(** The three products of lines 96-100 are exactly 5.0, 7.0 and 13.0 in
    binary64. *)
Example horizon_products :
  (of_int MAX_HORIZON_DAYS * lit 0.5)%num = (of_int 5 : float) /\
  (of_int MAX_HORIZON_DAYS * lit 0.7)%num = (of_int 7 : float) /\
  (of_int MAX_HORIZON_DAYS * lit 1.3)%num = (of_int 13 : float).
Proof. repeat split; reflexivity. Qed.

(** Entry 1.1000 with ATR 0.0050 and the default multiples: the long
    target is 1.1090; the bar two steps later reaches 1.1095 and no
    earlier bar touches a long barrier, so the long outcome is the
    take-profit hit at bar 2 and the label is +1. *)
Example rising_labels :
  tp_long (lit 1.1) (bar_tp_mult Ex.row) (lit 0.005) = (lit 1.109 : float) /\
  scan Ex.rising
    (tp_long (close Ex.row) (bar_tp_mult Ex.row) (atr Ex.row))
    (sl_long (close Ex.row) sl_mult (atr Ex.row))
    (tp_short (close Ex.row) (bar_tp_mult Ex.row) (atr Ex.row))
    (sl_short (close Ex.row) sl_mult (atr Ex.row))
    (range 1 (window_end 0 10 3)) None None
  = Some (Some (2%nat, TP), Some (1%nat, SL)) /\
  apply_triple_barrier_for_symbol Ex.rising = Some [1; 1; 0]%Z.
Proof. repeat split; vm_compute; reflexivity. Qed.

(** Probabilities 0.82, 0.25 and 0.55 against the threshold 0.7. *)
Example decide_values :
  fst (decide (T := float) (lit 0.82) (lit 0.7)) = LONG /\
  fst (decide (T := float) (lit 0.25) (lit 0.7)) = SHORT /\
  fst (decide (T := float) (lit 0.55) (lit 0.7)) = NONE /\
  decide (T := float) (lit 0.25) (lit 0.7) = (SHORT, lit 0.75).
Proof. repeat split; vm_compute; reflexivity. Qed.

(** ** Further properties of the labeling *)

Section LabelRange.

Context {T : Type} {N : Num T}.

Lemma resolve_range (hl hs : hit) :
  resolve hl hs = 1%Z \/ resolve hl hs = 0%Z \/ resolve hl hs = (-1)%Z.
Proof.
  destruct hl as [[jl [|]] |], hs as [[js [|]] |]; cbn; auto.
Qed.

Lemma label_at_range (df : list (Bar T)) (i : nat) (l : Z) :
  label_at df i = Some l -> l = 1%Z \/ l = 0%Z \/ l = (-1)%Z.
Proof.
  unfold label_at.
  destruct (nth_error df i) as [b |]; simpl; [| discriminate].
  destruct (atr_missing (atr b)).
  { intros H. injection H as <-. auto. }
  destruct (horizon (current_vol_ratio (vol_ratio b))) as [h |]; simpl;
    [| discriminate].
  destruct (List.length df <=? S i)%nat.
  { intros H. injection H as <-. auto. }
  destruct (scan df _ _ _ _ _ None None) as [[hl hs] |]; simpl;
    [| discriminate].
  intros H. injection H as <-. apply resolve_range.
Qed.

(** The labels the loop returns are those of the rows, in order. *)
Lemma labels_from_each (df : list (Bar T)) (is_ : list nat) (ls : list Z) :
  labels_from df is_ = Some ls ->
  Forall2 (fun i l => label_at df i = Some l) is_ ls.
Proof.
  revert ls. induction is_ as [| i is_ IH]; intros ls; simpl.
  - intros H. injection H as <-. constructor.
  - destruct (label_at df i) as [l |] eqn:El; simpl; [| discriminate].
    destruct (labels_from df is_) as [ls' |]; simpl; [| discriminate].
    intros H. injection H as <-. constructor; [exact El | apply IH; reflexivity].
Qed.

Lemma Forall2_at {A B : Type} (R : A -> B -> Prop) (l1 : list A)
    (l2 : list B) :
  Forall2 R l1 l2 ->
  forall i a b, nth_error l1 i = Some a -> nth_error l2 i = Some b -> R a b.
Proof.
  induction 1 as [| x y l1 l2 Hxy H IH]; intros [| i] a b Ha Hb;
    simpl in *; try discriminate.
  - injection Ha as <-. injection Hb as <-. exact Hxy.
  - exact (IH i a b Ha Hb).
Qed.

End LabelRange.

(** X1.  When labeling a frame completes, the [label] column has one
    entry per row, entry [i] is the label of row [i], and every entry is
    1, 0 or -1. *)
Theorem X1_labels_are_ternary {T : Type} {N : Num T}
    (df : list (Bar T)) (ls : list Z) :
  apply_triple_barrier_for_symbol df = Some ls ->
  List.length ls = List.length df /\
  (forall i, (i < List.length df)%nat -> nth_error ls i = label_at df i) /\
  Forall (fun l => l = 1%Z \/ l = 0%Z \/ l = (-1)%Z) ls.
Proof.
  unfold apply_triple_barrier_for_symbol, range. rewrite Nat.sub_0_r.
  intros H. apply labels_from_each in H.
  assert (Hlen : List.length ls = List.length df).
  { apply Forall2_length in H. rewrite length_seq in H. symmetry. exact H. }
  split; [exact Hlen |]. split.
  - intros i Hi.
    assert (Hi' : (i < List.length ls)%nat) by lia.
    destruct (nth_error ls i) as [l |] eqn:El;
      [| apply nth_error_None in El; lia].
    assert (Hnth : nth_error (seq 0 (List.length df)) i = Some i).
    { rewrite nth_error_nth' with (d := 0%nat);
        [| rewrite length_seq; exact Hi].
      rewrite seq_nth by exact Hi. reflexivity. }
    symmetry. exact (Forall2_at _ _ _ H i i l Hnth El).
  - clear Hlen. induction H as [| i0 l0 is' ls' H0 H IH]; constructor.
    + exact (label_at_range df i0 l0 H0).
    + exact IH.
Qed.

(** The labels of [Ex.rising] are 1, 1 and 0. *)
Lemma X1_labels_are_ternary_witness :
  Forall (fun l => l = 1%Z \/ l = 0%Z \/ l = (-1)%Z) [1; 1; 0]%Z.
Proof.
  refine (proj2 (proj2 (X1_labels_are_ternary Ex.rising [1; 1; 0]%Z _))).
  vm_compute. reflexivity.
Defined.

(** ** Volatility regime and horizon *)

(** X13.  The horizon [labeling.py] selects is a function of the
    volatility regime [features.py] assigns to the same volatility
    ratio: 13 bars in the low regime 0, 10 in the mid regime 1, 7 in the
    high regime 2 and 5 in the extreme regime 3; a NaN ratio is in the
    mid regime and gets horizon 10. *)
Theorem X13_horizon_follows_vol_regime (v : float) :
  horizon (current_vol_ratio v) =
  Some (match Features.vol_regime v with
        | 0 => 13
        | 2 => 7
        | 3 => 5
        | _ => 10
        end)%Z /\
  (PrimFloat.is_nan v = true -> Features.vol_regime v = 1%Z).
Proof.
  destruct (current_vol_ratio_cmp v) as (V1 & V2 & V3).
  split.
  - rewrite horizon_float, V1, V2, V3. unfold Features.vol_regime.
    destruct (v >? lit 1.5)%num; [reflexivity |].
    destruct (v >? lit 1.2)%num; [reflexivity |].
    destruct (v <? lit 0.8)%num; reflexivity.
  - intros Hn. unfold Features.vol_regime. simpl flt.
    rewrite !(ltb_nan_r _ v Hn), (ltb_nan_l v _ Hn). reflexivity.
Qed.

(** X14.  The horizon never grows with the volatility ratio: for any
    two binary64 ratios [v1 <= v2] the horizon selected at [v2] is at
    most the one selected at [v1], and every horizon lies between 5 and
    13. *)
Theorem X14_horizon_antitone (v1 v2 : float) :
  PrimFloat.leb v1 v2 = true ->
  exists h1 h2 : Z,
    horizon (current_vol_ratio v1) = Some h1 /\
    horizon (current_vol_ratio v2) = Some h2 /\
    (5 <= h2 <= h1)%Z /\ (h1 <= 13)%Z.
Proof.
  intros Hle.
  destruct (current_vol_ratio_cmp v1) as (A1 & A2 & A3).
  destruct (current_vol_ratio_cmp v2) as (B1 & B2 & B3).
  rewrite !horizon_float, A1, A2, A3, B1, B2, B3.
  do 2 eexists. split; [reflexivity |]. split; [reflexivity |].
  assert (T1 : (v1 >? lit 1.5)%num = true -> (v2 >? lit 1.5)%num = true)
    by (intros E; exact (ltb_leb_trans _ _ _ E Hle)).
  assert (T2 : (v1 >? lit 1.2)%num = true -> (v2 >? lit 1.2)%num = true)
    by (intros E; exact (ltb_leb_trans _ _ _ E Hle)).
  assert (T3 : (v2 <? lit 0.8)%num = true -> (v1 <? lit 0.8)%num = true)
    by (intros E; exact (leb_ltb_trans _ _ _ Hle E)).
  destruct (v1 >? lit 1.5)%num; destruct (v2 >? lit 1.5)%num;
    try (specialize (T1 eq_refl); discriminate T1);
    destruct (v1 >? lit 1.2)%num; destruct (v2 >? lit 1.2)%num;
    try (specialize (T2 eq_refl); discriminate T2);
    destruct (v1 <? lit 0.8)%num; destruct (v2 <? lit 0.8)%num;
    try (specialize (T3 eq_refl); discriminate T3); lia.
Qed.

(** Ratios 0.5 and 2: horizons 13 and 5. *)
Lemma X14_horizon_antitone_witness :
  exists h1 h2 : Z,
    horizon (T := float) (current_vol_ratio (lit 0.5)) = Some h1 /\
    horizon (T := float) (current_vol_ratio (lit 2)) = Some h2 /\
    (5 <= h2 <= h1)%Z /\ (h1 <= 13)%Z.
Proof.
  refine (X14_horizon_antitone (lit 0.5) (lit 2) _).
  vm_compute. reflexivity.
Defined.

(** ** Which bars a label depends on *)

Section Locality.

Context {T : Type} {N : Num T}.

Lemma resolve_kind (hl hs hl' hs' : hit) :
  option_map snd hl = option_map snd hl' ->
  option_map snd hs = option_map snd hs' ->
  resolve hl hs = resolve hl' hs'.
Proof.
  destruct hl as [[jl [|]] |], hl' as [[jl' [|]] |]; simpl;
    try discriminate; intros _;
    destruct hs as [[js [|]] |], hs' as [[js' [|]] |]; simpl;
    try discriminate; intros _; reflexivity.
Qed.

(** Two runs of indices whose bars touch the same barriers give the
    same kind of outcome. *)
Lemma find_touch_kind_shift (touch touch' : nat -> option kind)
    (len a a' : nat) :
  (forall k, (k < len)%nat -> touch (a + k)%nat = touch' (a' + k)%nat) ->
  option_map snd (find_touch touch (seq a len)) =
  option_map snd (find_touch touch' (seq a' len)).
Proof.
  revert a a'. induction len as [| len IH]; intros a a' Hsame;
    [reflexivity |].
  simpl. pose proof (Hsame 0%nat (Nat.lt_0_succ len)) as H0.
  rewrite !Nat.add_0_r in H0. rewrite H0.
  destruct (touch' a') as [k |]; [reflexivity |]. simpl.
  apply IH. intros k Hk. specialize (Hsame (S k) (proj1 (Nat.succ_lt_mono k len) Hk)).
  rewrite !Nat.add_succ_r in Hsame. exact Hsame.
Qed.

(** The label of a bar is the same in two frames that hold the same
    bar followed by the same bars over the window. *)
Lemma label_at_rel (df df' : list (Bar T)) (i i' : nat) (b : Bar T) :
  nth_error df i = Some b ->
  nth_error df' i' = Some b ->
  (forall h, horizon (current_vol_ratio (vol_ratio b)) = Some h ->
     (window_end i h (List.length df) - S i =
      window_end i' h (List.length df') - S i')%nat /\
     forall k, (k < window_end i h (List.length df) - S i)%nat ->
       nth_error df (S i + k) = nth_error df' (S i' + k)) ->
  label_at df i = label_at df' i'.
Proof.
  intros Hb Hb' Hwin.
  destruct (atr_missing (atr b)) eqn:Hatr.
  { rewrite (label_at_skip df i b Hb Hatr), (label_at_skip df' i' b Hb' Hatr).
    reflexivity. }
  destruct (horizon (current_vol_ratio (vol_ratio b))) as [h |] eqn:Hh.
  - destruct (Hwin h eq_refl) as [Hlen Hbars].
    rewrite (label_at_eq df i b h Hb Hatr Hh),
            (label_at_eq df' i' b h Hb' Hatr Hh).
    f_equal. rewrite !window_seq, <- Hlen.
    apply resolve_kind; apply find_touch_kind_shift; intros k Hk;
      unfold long_touch_of, short_touch_of, Spec.touch_at;
      rewrite (Hbars k Hk); reflexivity.
  - unfold label_at. rewrite Hb, Hb'. simpl. rewrite Hatr, Hh. reflexivity.
Qed.

(** The bars before a bar do not enter its label. *)
Lemma label_at_shift (pre l : list (Bar T)) (i : nat) :
  label_at (pre ++ l) (List.length pre + i) = label_at l i.
Proof.
  destruct (nth_error l i) as [b |] eqn:Hb.
  - apply (label_at_rel _ _ _ _ b).
    + rewrite nth_error_app2 by lia.
      replace (List.length pre + i - List.length pre)%nat with i by lia.
      exact Hb.
    + exact Hb.
    + intros h _. rewrite length_app. split.
      * unfold window_end. lia.
      * intros k _. rewrite nth_error_app2 by lia. f_equal. lia.
  - unfold label_at. rewrite Hb.
    rewrite nth_error_app2 by lia.
    replace (List.length pre + i - List.length pre)%nat with i by lia.
    rewrite Hb. reflexivity.
Qed.

End Locality.

(** X2.  The last bar of a frame always gets label 0: it has no later
    bar to scan. *)
Theorem X2_last_bar_is_neutral (df : list (Bar float)) (b : Bar float) :
  label_at (df ++ [b]) (List.length df) = Some 0%Z.
Proof.
  assert (Hb : nth_error (df ++ [b]) (List.length df) = Some b).
  { rewrite nth_error_app2 by lia. rewrite Nat.sub_diag. reflexivity. }
  destruct (atr_missing (atr b)) eqn:Hatr.
  - exact (label_at_skip _ _ b Hb Hatr).
  - rewrite (label_at_eq _ _ b _ Hb Hatr (horizon_float _)).
    rewrite window_empty; [reflexivity |].
    rewrite length_app. simpl. lia.
Qed.

(** X3.  A label depends only on its bar and on the 13 bars after it:
    the bars before the entry never enter it, and once 13 later bars are
    in the frame, appending more data does not change it. *)
Theorem X3_label_depends_on_next_13_bars
    (pre fut post : list (Bar float)) (b : Bar float) :
  (13 <= List.length fut)%nat ->
  label_at (pre ++ b :: fut ++ post) (List.length pre) = label_at (b :: fut) 0.
Proof.
  intros Hfut.
  replace (List.length pre) with (List.length pre + 0)%nat at 1 by lia.
  rewrite label_at_shift.
  apply (label_at_rel _ _ _ _ b); try reflexivity.
  intros h Hh. rewrite horizon_float in Hh.
  assert (Hrange : (5 <= h <= 13)%Z).
  { revert Hh.
    repeat match goal with
           | |- context [if ?c then _ else _] => destruct c
           end; intros Hh; injection Hh as <-; lia. }
  simpl List.length. rewrite length_app. split.
  - unfold window_end. lia.
  - intros k Hk. unfold window_end in Hk. simpl.
    rewrite nth_error_app1 by lia. reflexivity.
Qed.

(** Thirteen flat bars after the entry: whatever comes before and
    after, the label is that of the entry with these bars. *)
Lemma X3_label_depends_on_next_13_bars_witness :
  label_at (Ex.rising ++ Ex.row :: repeat Ex.row 13 ++ Ex.wide) 3
  = label_at (Ex.row :: repeat Ex.row 13) 0.
Proof.
  exact (X3_label_depends_on_next_13_bars Ex.rising (repeat Ex.row 13) Ex.wide
           Ex.row (Nat.le_refl 13)).
Defined.

(** ** A profit hit on one side is a hit on the other side *)

Lemma first_touch_before (touch : nat -> option kind) (w : list nat)
    (h : hit) (j : nat) :
  Spec.first_touch touch w h -> In j w -> touch j <> None ->
  exists j' k, h = Some (j', k) /\ (j' <= j)%nat.
Proof.
  destruct h as [[j' k] |]; simpl.
  - intros (_ & _ & Hfirst) Hj Ht. exists j', k. split; [reflexivity |].
    destruct (Nat.le_gt_cases j' j) as [Hle | Hgt]; [exact Hle |].
    exfalso. apply Ht. exact (Hfirst j Hj Hgt).
  - intros Hnone Hj Ht. exfalso. apply Ht. exact (Hnone j Hj).
Qed.

Section TouchFacts.

Context {T : Type} {N : Num T}.

Lemma touch_long_TP (df : list (Bar T)) (b : Bar T) (j : nat) :
  long_touch_of df b j = Some TP ->
  exists bj, nth_error df j = Some bj /\
    (high bj >=? tp_long (close b) (bar_tp_mult b) (atr b))%num = true.
Proof.
  unfold long_touch_of, Spec.touch_at, Spec.long_touch.
  destruct (nth_error df j) as [bj |]; simpl; [| discriminate].
  intros H. exists bj. split; [reflexivity |].
  destruct (high bj >=? tp_long (close b) (bar_tp_mult b) (atr b))%num;
    [reflexivity |].
  destruct (low bj <=? sl_long (close b) sl_mult (atr b))%num; discriminate H.
Qed.

Lemma touch_short_TP (df : list (Bar T)) (b : Bar T) (j : nat) :
  short_touch_of df b j = Some TP ->
  exists bj, nth_error df j = Some bj /\
    (low bj <=? tp_short (close b) (bar_tp_mult b) (atr b))%num = true.
Proof.
  unfold short_touch_of, Spec.touch_at, Spec.short_touch.
  destruct (nth_error df j) as [bj |]; simpl; [| discriminate].
  intros H. exists bj. split; [reflexivity |].
  destruct (low bj <=? tp_short (close b) (bar_tp_mult b) (atr b))%num;
    [reflexivity |].
  destruct (high bj >=? sl_short (close b) sl_mult (atr b))%num; discriminate H.
Qed.

Lemma touch_short_some (df : list (Bar T)) (b : Bar T) (j : nat) (bj : Bar T) :
  nth_error df j = Some bj ->
  (high bj >=? sl_short (close b) sl_mult (atr b))%num = true ->
  short_touch_of df b j <> None.
Proof.
  intros Hbj H. unfold short_touch_of, Spec.touch_at, Spec.short_touch.
  rewrite Hbj. simpl. rewrite H.
  destruct (low bj <=? tp_short (close b) (bar_tp_mult b) (atr b))%num;
    discriminate.
Qed.

Lemma touch_long_some (df : list (Bar T)) (b : Bar T) (j : nat) (bj : Bar T) :
  nth_error df j = Some bj ->
  (low bj <=? sl_long (close b) sl_mult (atr b))%num = true ->
  long_touch_of df b j <> None.
Proof.
  intros Hbj H. unfold long_touch_of, Spec.touch_at, Spec.long_touch.
  rewrite Hbj. simpl. rewrite H.
  destruct (high bj >=? tp_long (close b) (bar_tp_mult b) (atr b))%num;
    discriminate.
Qed.

End TouchFacts.

(** The take-profit multiple of a bar is at least 1, the stop-loss
    multiple. *)
Lemma bar_tp_mult_ge_one (b : Bar float) :
  PrimFloat.leb (F64.of_int 1) (bar_tp_mult b) = true.
Proof.
  unfold bar_tp_mult, tp_mult.
  destruct (flt (of_int 30) (current_trend (trend_strength b)));
    [vm_compute; reflexivity |].
  destruct (flt (current_vol_ratio (vol_ratio b)) (lit 0.8));
    vm_compute; reflexivity.
Qed.

(** For a positive ATR and a take-profit multiple of at least 1, in
    binary64: a price that reaches the long target reaches the short
    stop, and a price that reaches the short target reaches the long
    stop. *)
Lemma barriers_ordered (entry c a : float) :
  PrimFloat.leb (F64.of_int 1) c = true ->
  PrimFloat.ltb (F64.of_int 0) a = true ->
  (forall hi : float,
     (hi >=? tp_long entry c a)%num = true ->
     (hi >=? sl_short entry sl_mult a)%num = true) /\
  (forall lo : float,
     (lo <=? tp_short entry c a)%num = true ->
     (lo <=? sl_long entry sl_mult a)%num = true).
Proof.
  intros Hc Ha.
  assert (H1 : PrimFloat.leb (PrimFloat.mul (F64.lit 1.0) a) (PrimFloat.mul c a)
               = true).
  { apply leb_trans with a; [apply mul_one_le | apply mul_ge]; assumption. }
  assert (H2 : PrimFloat.ltb (F64.of_int 0) (PrimFloat.mul (F64.lit 1.0) a)
               = true).
  { apply ltb_leb_trans with a; [exact Ha |].
    apply mul_ge; [vm_compute; reflexivity | exact Ha]. }
  split.
  - intros hi H.
    change (PrimFloat.leb (PrimFloat.add entry (PrimFloat.mul c a)) hi = true)
      in H.
    change (PrimFloat.leb
              (PrimFloat.add entry (PrimFloat.mul (F64.lit 1.0) a)) hi = true).
    destruct (leb_not_nan _ _ H) as [Hn _].
    apply leb_trans with (PrimFloat.add entry (PrimFloat.mul c a));
      [apply add_le; assumption | exact H].
  - intros lo H.
    change (PrimFloat.leb lo (PrimFloat.sub entry (PrimFloat.mul c a)) = true)
      in H.
    change (PrimFloat.leb lo
              (PrimFloat.sub entry (PrimFloat.mul (F64.lit 1.0) a)) = true).
    destruct (leb_not_nan _ _ H) as [_ Hn].
    apply leb_trans with (PrimFloat.sub entry (PrimFloat.mul c a));
      [exact H | apply sub_le; assumption].
Qed.

(** X4.  In binary64, for an entry bar with a positive ATR: when the
    long hypothesis ends in a take-profit hit at bar [j], the short
    hypothesis has been hit at [j] or before, and the other way round;
    so a label +1 always means that the short hypothesis was stopped
    out, and a label -1 that the long hypothesis was stopped out. *)
Theorem X4_profit_hit_forces_opposite_hit
    (df : list (Bar float)) (i : nat) (b : Bar float) (h : Z) (hl hs : hit) :
  nth_error df i = Some b ->
  (atr b >? of_int 0)%num = true ->
  horizon (current_vol_ratio (vol_ratio b)) = Some h ->
  scan df (tp_long (close b) (bar_tp_mult b) (atr b))
          (sl_long (close b) sl_mult (atr b))
          (tp_short (close b) (bar_tp_mult b) (atr b))
          (sl_short (close b) sl_mult (atr b))
          (range (S i) (window_end i h (List.length df))) None None
    = Some (hl, hs) ->
  label_at df i = Some (resolve hl hs) /\
  (forall j, hl = Some (j, TP) ->
     exists j' k, hs = Some (j', k) /\ (j' <= j)%nat) /\
  (forall j, hs = Some (j, TP) ->
     exists j' k, hl = Some (j', k) /\ (j' <= j)%nat) /\
  (label_at df i = Some 1%Z -> exists j, hs = Some (j, SL)) /\
  (label_at df i = Some (-1)%Z -> exists j, hl = Some (j, SL)).
Proof.
  intros Hb Hpos Hh Hscan.
  change (PrimFloat.ltb (F64.of_int 0) (atr b) = true) in Hpos.
  assert (Hatr : atr_missing (atr b) = false).
  { unfold atr_missing. apply orb_false_iff. split.
    - apply not_true_is_false. intros E.
      rewrite (ltb_nan_r _ _ E) in Hpos. discriminate Hpos.
    - change (PrimFloat.eqb (atr b) (F64.of_int 0) = false).
      apply ltb_SFcompare in Hpos. apply SFcompare_antisym in Hpos.
      rewrite FloatAxioms.eqb_spec. unfold SFeqb. rewrite Hpos. reflexivity. }
  pose proof (label_at_eq df i b h Hb Hatr Hh) as Hlabel.
  fold (window i h (List.length df)) in Hscan.
  rewrite scan_window in Hscan.
  assert (Hl : find_touch (long_touch_of df b) (window i h (List.length df))
               = hl) by (unfold long_touch_of; congruence).
  assert (Hs : find_touch (short_touch_of df b) (window i h (List.length df))
               = hs) by (unfold short_touch_of; congruence).
  clear Hscan. rewrite Hl, Hs in Hlabel.
  pose proof (find_touch_first (long_touch_of df b)
                (window_end i h (List.length df) - S i) (S i)) as Fl.
  pose proof (find_touch_first (short_touch_of df b)
                (window_end i h (List.length df) - S i) (S i)) as Fs.
  rewrite <- window_seq in Fl, Fs. rewrite Hl in Fl. rewrite Hs in Fs.
  destruct (barriers_ordered (close b) (bar_tp_mult b) (atr b)
              (bar_tp_mult_ge_one b) Hpos) as [Olong Oshort].
  assert (P1 : forall j, hl = Some (j, TP) ->
                 exists j' k, hs = Some (j', k) /\ (j' <= j)%nat).
  { intros j E. rewrite E in Fl. destruct Fl as (Hin & Ht & _).
    apply (first_touch_before _ _ _ j Fs Hin).
    destruct (touch_long_TP _ _ _ Ht) as (bj & Hbj & E1).
    apply (touch_short_some _ _ _ bj Hbj).
    apply Olong. exact E1. }
  assert (P2 : forall j, hs = Some (j, TP) ->
                 exists j' k, hl = Some (j', k) /\ (j' <= j)%nat).
  { intros j E. rewrite E in Fs. destruct Fs as (Hin & Ht & _).
    apply (first_touch_before _ _ _ j Fl Hin).
    destruct (touch_short_TP _ _ _ Ht) as (bj & Hbj & E1).
    apply (touch_long_some _ _ _ bj Hbj).
    apply Oshort. exact E1. }
  split; [exact Hlabel |]. split; [exact P1 |]. split; [exact P2 |].
  rewrite Hlabel. split; intros E; injection E as E.
  - destruct hl as [[jl [|]] |], hs as [[js [|]] |]; cbn in E;
      try discriminate E; try (eexists; reflexivity).
    destruct (P1 jl eq_refl) as (j' & k & E' & _). discriminate E'.
  - destruct hl as [[jl [|]] |], hs as [[js [|]] |]; cbn in E;
      try discriminate E; try (eexists; reflexivity).
    destruct (P2 js eq_refl) as (j' & k & E' & _). discriminate E'.
Qed.

(** [Ex.rising]: the long take-profit hit at bar 2 comes after the
    short stop-loss hit at bar 1, and the label is +1. *)
Lemma X4_profit_hit_forces_opposite_hit_witness :
  label_at Ex.rising 0 = Some (resolve (Some (2%nat, TP)) (Some (1%nat, SL))) /\
  exists j' k, (Some (1%nat, SL) : hit) = Some (j', k) /\ (j' <= 2)%nat.
Proof.
  assert (H := X4_profit_hit_forces_opposite_hit Ex.rising 0 Ex.row 10
                 (Some (2%nat, TP)) (Some (1%nat, SL))).
  destruct H as (Hl & P1 & _).
  - reflexivity.
  - vm_compute. reflexivity.
  - vm_compute. reflexivity.
  - vm_compute. reflexivity.
  - split; [exact Hl | exact (P1 2%nat eq_refl)].
Defined.

(** ** The whole of [generate_signals] *)

Section TailFacts.

Context {A : Type}.

Lemma tail1_app (pre : list A) (r : A) : tail1 (pre ++ [r]) = [r].
Proof.
  unfold tail1. rewrite length_app. simpl.
  replace (List.length pre + 1 - 1)%nat with (List.length pre + 0)%nat by lia.
  rewrite skipn_app, skipn_all2 by lia.
  replace (List.length pre + 0 - List.length pre)%nat with 0%nat by lia.
  reflexivity.
Qed.

Lemma length_tail1 (l : list A) : (List.length (tail1 l) <= 1)%nat.
Proof. unfold tail1. rewrite length_skipn. lia. Qed.

Lemma in_tail1 (l : list A) (x : A) : In x (tail1 l) -> In x l.
Proof.
  unfold tail1. intros H.
  rewrite <- (firstn_skipn (List.length l - 1) l).
  apply in_or_app. right. exact H.
Qed.

Lemma tail1_singleton (l : list A) (x : A) : In x (tail1 l) -> tail1 l = [x].
Proof.
  pose proof (length_tail1 l) as Hlen.
  destruct (tail1 l) as [| y [| z l']]; simpl in *.
  - intros [].
  - intros [-> | []]. reflexivity.
  - lia.
Qed.

End TailFacts.

Section PipelineFacts.

Context {T : Type} {N : Num T}.
Variable predict_proba : list T -> T.

Lemma symbol_signals_eq (t : T) (latest : bool)
    (rows : list (Pipeline.FeatureRow T)) :
  Pipeline.symbol_signals predict_proba t latest rows =
  signals_for_rows t
    (map (fun r => (Pipeline.bar r, predict_proba (Pipeline.features r)))
       (Pipeline.dropna (if latest then tail1 rows else rows))).
Proof.
  unfold Pipeline.symbol_signals.
  destruct (Pipeline.dropna (if latest then tail1 rows else rows));
    reflexivity.
Qed.

Lemma length_signals_for_rows (t : T) (rows : list (Bar T * T)) :
  (List.length (signals_for_rows t rows) <= List.length rows)%nat.
Proof.
  induction rows as [| [row p] rows IH]; simpl; [lia |].
  destruct (signal_for_row t row p); simpl; lia.
Qed.

Lemma length_symbol_signals_latest (t : T)
    (rows : list (Pipeline.FeatureRow T)) :
  (List.length (Pipeline.symbol_signals predict_proba t true rows) <= 1)%nat.
Proof.
  rewrite symbol_signals_eq.
  change (if true then tail1 rows else rows) with (tail1 rows).
  pose proof (length_signals_for_rows t
    (map (fun r => (Pipeline.bar r, predict_proba (Pipeline.features r)))
       (Pipeline.dropna (tail1 rows)))) as H1.
  rewrite length_map in H1.
  pose proof (filter_length_le
    (fun r => negb (existsb isnan (Pipeline.features r))) (tail1 rows)) as H2.
  pose proof (length_tail1 rows) as H3.
  unfold Pipeline.dropna in H1 |- *. lia.
Qed.

(** Where a record of [symbol_signals] comes from. *)
Lemma in_symbol_signals (t : T) (latest : bool)
    (rows : list (Pipeline.FeatureRow T)) (s : Signal.t T) :
  In s (Pipeline.symbol_signals predict_proba t latest rows) ->
  exists r,
    In r rows /\
    existsb isnan (Pipeline.features r) = false /\
    signal_for_row t (Pipeline.bar r) (predict_proba (Pipeline.features r))
      = Some s /\
    (latest = true -> tail1 rows = [r]).
Proof.
  rewrite symbol_signals_eq. intros Hin.
  destruct (in_signals_for_rows t _ s Hin) as (row & p & Hrp & Hs).
  apply in_map_iff in Hrp. destruct Hrp as (r & Er & Hr).
  injection Er as <- <-.
  unfold Pipeline.dropna in Hr. apply filter_In in Hr.
  destruct Hr as [Hr Hna]. apply negb_true_iff in Hna.
  exists r. split; [| split; [exact Hna | split; [exact Hs |]]].
  - destruct latest; [apply in_tail1 |]; exact Hr.
  - intros ->. apply tail1_singleton. exact Hr.
Qed.

(** Where a record of the whole loop comes from. *)
Lemma in_pipeline_signals (t : T) (latest : bool)
    (groups : list (list (Pipeline.FeatureRow T))) (s : Signal.t T) :
  In s (Pipeline.generate_signals predict_proba t latest groups) ->
  exists rows r,
    In rows groups /\ In r rows /\
    existsb isnan (Pipeline.features r) = false /\
    signal_for_row t (Pipeline.bar r) (predict_proba (Pipeline.features r))
      = Some s /\
    (latest = true -> tail1 rows = [r]).
Proof.
  intros Hin. unfold Pipeline.generate_signals in Hin.
  apply in_flat_map in Hin. destruct Hin as (rows & Hrows & Hs).
  destruct (in_symbol_signals t latest rows s Hs)
    as (r & Hr & Hna & Hsig & Hlast).
  exists rows, r. repeat split; assumption.
Qed.

End PipelineFacts.

(** X5.  [get_latest_signals] emits at most one signal per symbol.
    Every record [generate_signals] emits is the signal of a row none
    of whose model features is NaN, and in latest-only mode of the last
    row of its symbol.  When the latest row of a symbol has a NaN
    feature the symbol gets no signal: the engine does not fall back to
    an earlier row. *)
Theorem X5_latest_only_and_missing_features {T : Type} {N : Num T}
    (predict_proba : list T -> T) (t : T)
    (groups : list (list (Pipeline.FeatureRow T))) :
  (List.length (Pipeline.get_latest_signals predict_proba t groups)
     <= List.length groups)%nat /\
  (forall (latest : bool) (s : Signal.t T),
     In s (Pipeline.generate_signals predict_proba t latest groups) ->
     exists rows r,
       In rows groups /\ In r rows /\
       existsb isnan (Pipeline.features r) = false /\
       signal_for_row t (Pipeline.bar r)
         (predict_proba (Pipeline.features r)) = Some s /\
       (latest = true -> tail1 rows = [r])) /\
  (forall (pre : list (Pipeline.FeatureRow T)) (r : Pipeline.FeatureRow T),
     existsb isnan (Pipeline.features r) = true ->
     Pipeline.symbol_signals predict_proba t true (pre ++ [r]) = []).
Proof.
  split; [| split].
  - unfold Pipeline.get_latest_signals, Pipeline.generate_signals.
    induction groups as [| rows groups IH]; simpl; [lia |].
    rewrite length_app.
    pose proof (length_symbol_signals_latest predict_proba t rows). lia.
  - intros latest s Hin.
    exact (in_pipeline_signals predict_proba t latest groups s Hin).
  - intros pre r Hna. rewrite symbol_signals_eq, tail1_app.
    unfold Pipeline.dropna. simpl. rewrite Hna. reflexivity.
Qed.

(** A symbol whose latest row lacks a feature: no signal, although the
    row before it would give one. *)
Lemma X5_latest_only_and_missing_features_witness :
  Pipeline.symbol_signals (T := float) (fun _ => lit 0.9) (lit 0.7) true
    ([Pipeline.mkFeatureRow Ex.row [lit 1]] ++
     [Pipeline.mkFeatureRow Ex.row [PrimFloat.nan]]) = [] /\
  Pipeline.symbol_signals (T := float) (fun _ => lit 0.9) (lit 0.7) true
    [Pipeline.mkFeatureRow Ex.row [lit 1]] <> [].
Proof.
  split.
  - refine (proj2 (proj2 (X5_latest_only_and_missing_features
                            (fun _ => lit 0.9) (lit 0.7) [])) _ _ _).
    vm_compute. reflexivity.
  - intros E. apply (f_equal (@List.length _)) in E. vm_compute in E.
    discriminate E.
Defined.

(** X6.  In the report over the records [generate_signals] emits, the
    numbers of long and of short signals add up to the total: every
    record is in exactly one of the two groups. *)
Theorem X6_report_counts_add_up {T : Type} {N : Num T}
    (predict_proba : list T -> T) (t : T) (latest : bool)
    (groups : list (list (Pipeline.FeatureRow T))) :
  let signals := Pipeline.generate_signals predict_proba t latest groups in
  (List.length (Pipeline.long_signals signals) +
   List.length (Pipeline.short_signals signals) = List.length signals)%nat.
Proof.
  intros signals.
  assert (Hdir : Forall (fun s => Signal.direction s = LONG \/
                                  Signal.direction s = SHORT) signals).
  { apply Forall_forall. intros s Hin.
    destruct (in_pipeline_signals predict_proba t latest groups s Hin)
      as (rows & r & _ & _ & _ & Hsig & _).
    destruct (signal_for_row_inv _ _ _ _ Hsig)
      as (_ & [(_ & ->) | (_ & _ & ->)]); simpl; auto. }
  unfold Pipeline.long_signals, Pipeline.short_signals.
  induction Hdir as [| s l [Hs | Hs] _ IH]; simpl; [reflexivity | |];
    rewrite Hs; simpl; lia.
Qed.

(** ** Targets and the time split of [dataset.py] *)

Section DatasetFacts.

Context {T : Type} {N : Num T}.

Lemma in_prepare_ml_dataset (drop_neutral drop_na : bool)
    (df : list (Dataset.Row T)) (r : Dataset.Row T) (tg : Z) :
  In (r, tg) (Dataset.prepare_ml_dataset drop_neutral drop_na df) <->
  In r df /\
  tg = (if (Dataset.label r =? 1)%Z then 1 else 0)%Z /\
  (drop_neutral = true -> Dataset.label r <> 0%Z) /\
  (drop_na = true -> existsb isnan (Dataset.features r) = false).
Proof.
  unfold Dataset.prepare_ml_dataset.
  destruct drop_na, drop_neutral; rewrite ?filter_In, ?in_map_iff; simpl;
    split.
  - intros ((r' & E & Hr) & Hna). injection E as -> <-.
    apply filter_In in Hr. destruct Hr as [Hr Hl].
    apply negb_true_iff in Hna. apply negb_true_iff, Z.eqb_neq in Hl.
    repeat split; auto.
  - intros (Hr & -> & Hl & Hna). split.
    + exists r. split; [reflexivity |]. apply filter_In. split; [exact Hr |].
      apply negb_true_iff, Z.eqb_neq. auto.
    + apply negb_true_iff. auto.
  - intros ((r' & E & Hr) & Hna). injection E as -> <-.
    apply negb_true_iff in Hna. repeat split; auto. discriminate.
  - intros (Hr & -> & _ & Hna). split.
    + exists r. split; [reflexivity | exact Hr].
    + apply negb_true_iff. auto.
  - intros (r' & E & Hr). injection E as -> <-.
    apply filter_In in Hr. destruct Hr as [Hr Hl].
    apply negb_true_iff, Z.eqb_neq in Hl. repeat split; auto. discriminate.
  - intros (Hr & -> & Hl & _). exists r. split; [reflexivity |].
    apply filter_In. split; [exact Hr |]. apply negb_true_iff, Z.eqb_neq. auto.
  - intros (r' & E & Hr). injection E as -> <-.
    repeat split; auto; discriminate.
  - intros (Hr & -> & _ & _). exists r. split; [reflexivity | exact Hr].
Qed.

End DatasetFacts.

(** X11.  On a frame whose labels are 1, 0 or -1, [prepare_ml_dataset]
    with [drop_neutral] keeps exactly the rows labelled 1 or -1 (and,
    with [drop_na], without a NaN feature), with target 1 for label 1
    (long win) and target 0 for label -1 (short win).  Without
    [drop_neutral] a neutral row is kept with target 0, the target of a
    short win. *)
Theorem X11_targets_of_labels {T : Type} {N : Num T}
    (drop_na : bool) (df : list (Dataset.Row T)) :
  Forall (fun r => Dataset.label r = 1%Z \/ Dataset.label r = 0%Z \/
                   Dataset.label r = (-1)%Z) df ->
  (forall r tg,
     In (r, tg) (Dataset.prepare_ml_dataset true drop_na df) <->
     In r df /\
     ((Dataset.label r = 1%Z /\ tg = 1%Z) \/
      (Dataset.label r = (-1)%Z /\ tg = 0%Z)) /\
     (drop_na = true -> existsb isnan (Dataset.features r) = false)) /\
  (forall r,
     In r df -> Dataset.label r = 0%Z ->
     (drop_na = true -> existsb isnan (Dataset.features r) = false) ->
     In (r, 0%Z) (Dataset.prepare_ml_dataset false drop_na df)).
Proof.
  intros Hlab. rewrite Forall_forall in Hlab. split.
  - intros r tg. rewrite in_prepare_ml_dataset. split.
    + intros (Hr & -> & Hl & Hna). specialize (Hl eq_refl).
      split; [exact Hr |]. split; [| exact Hna].
      destruct (Hlab r Hr) as [E | [E | E]]; rewrite E in *; simpl; auto.
      congruence.
    + intros (Hr & [[E ->] | [E ->]] & Hna); rewrite E; simpl;
        repeat split; auto; discriminate.
  - intros r Hr E Hna. apply in_prepare_ml_dataset.
    rewrite E. simpl. repeat split; auto. discriminate.
Qed.

(** Two rows labelled 1 and 0: only the first is kept, with target 1. *)
Lemma X11_targets_of_labels_witness :
  In (Dataset.mkRow 0 1 [lit 1 : float], 1%Z)
     (Dataset.prepare_ml_dataset true true
        [Dataset.mkRow 0 1 [lit 1]; Dataset.mkRow 1 0 [lit 1]]).
Proof.
  refine (proj2 (proj1 (X11_targets_of_labels true
            [Dataset.mkRow 0 1 [lit 1 : float]; Dataset.mkRow 1 0 [lit 1]] _)
            _ _) _).
  - constructor; [left; reflexivity |].
    constructor; [right; left; reflexivity | constructor].
  - split; [left; reflexivity |].
    split; [left; split; reflexivity | intros _; vm_compute; reflexivity].
Defined.

Section SplitFacts.

Lemma fold_max_in (l : list Z) (a : Z) : In (fold_left Z.max l a) (a :: l).
Proof.
  revert a. induction l as [| x l IH]; intros a; simpl; [left; reflexivity |].
  destruct (IH (Z.max a x)) as [E | Hin].
  - rewrite <- E. destruct (Z.max_spec a x) as [[_ ->] | [_ ->]]; auto.
  - right. right. exact Hin.
Qed.

Lemma fold_min_in (l : list Z) (a : Z) : In (fold_left Z.min l a) (a :: l).
Proof.
  revert a. induction l as [| x l IH]; intros a; simpl; [left; reflexivity |].
  destruct (IH (Z.min a x)) as [E | Hin].
  - rewrite <- E. destruct (Z.min_spec a x) as [[_ ->] | [_ ->]]; auto.
  - right. right. exact Hin.
Qed.

(** The comparison of an assertion holds exactly when both frames have
    rows, once every time of the first is below every time of the
    second. *)
Lemma time_lt_max_min (l1 l2 : list Z) :
  (forall x y, In x l1 -> In y l2 -> (x < y)%Z) ->
  Dataset.time_lt (Dataset.time_max l1) (Dataset.time_min l2) =
  match l1, l2 with
  | _ :: _, _ :: _ => true
  | _, _ => false
  end.
Proof.
  intros Hlt. destruct l1 as [| a l1], l2 as [| b l2]; try reflexivity.
  simpl. apply Z.ltb_lt. apply Hlt.
  - apply fold_max_in.
  - apply fold_min_in.
Qed.

Lemma split_lengths {A : Type} (time_of : A -> Z) (df : list A)
    (val_start test_start : Z) :
  (val_start <= test_start)%Z ->
  (List.length (filter (fun r => (time_of r <? val_start)%Z) df) +
   List.length (filter (fun r => (val_start <=? time_of r)%Z &&
                                 (time_of r <? test_start)%Z) df) +
   List.length (filter (fun r => (test_start <=? time_of r)%Z) df)
   = List.length df)%nat.
Proof.
  intros Hle. induction df as [| r df IH]; simpl; [reflexivity |].
  destruct (Z.ltb_spec (time_of r) val_start),
           (Z.leb_spec val_start (time_of r)),
           (Z.ltb_spec (time_of r) test_start),
           (Z.leb_spec test_start (time_of r)); simpl; lia.
Qed.

End SplitFacts.

(** X12.  The two leak assertions of [split_train_val_test] fail
    exactly when one of the three frames is empty: with rows in all
    three the split is returned, and the comparisons can then never
    fail.  A split that is returned has [val_start < test_start], puts
    every row in exactly one frame, and bounds the times of each frame
    by the two dates. *)
Theorem X12_time_split {A : Type} (time_of : A -> Z) (df : list A)
    (val_start test_start : Z) :
  let train_df := filter (fun r => (time_of r <? val_start)%Z) df in
  let val_df :=
    filter (fun r => (val_start <=? time_of r)%Z &&
                     (time_of r <? test_start)%Z) df in
  let test_df := filter (fun r => (test_start <=? time_of r)%Z) df in
  Dataset.split_train_val_test time_of df val_start test_start =
    match train_df, val_df, test_df with
    | _ :: _, _ :: _, _ :: _ => Some (train_df, val_df, test_df)
    | _, _, _ => None
    end /\
  (forall tr va te,
     Dataset.split_train_val_test time_of df val_start test_start
       = Some (tr, va, te) ->
     (val_start < test_start)%Z /\
     (List.length tr + List.length va + List.length te
        = List.length df)%nat /\
     (forall r, In r tr <-> In r df /\ (time_of r < val_start)%Z) /\
     (forall r, In r va <->
        In r df /\ (val_start <= time_of r < test_start)%Z) /\
     (forall r, In r te <-> In r df /\ (test_start <= time_of r)%Z)).
Proof.
  intros train_df val_df test_df.
  assert (Htr : forall r, In r train_df <-> In r df /\ (time_of r < val_start)%Z).
  { intros r. unfold train_df. rewrite filter_In, Z.ltb_lt. reflexivity. }
  assert (Hva : forall r, In r val_df <->
            In r df /\ (val_start <= time_of r < test_start)%Z).
  { intros r. unfold val_df.
    rewrite filter_In, andb_true_iff, Z.leb_le, Z.ltb_lt. reflexivity. }
  assert (Hte : forall r, In r test_df <-> In r df /\ (test_start <= time_of r)%Z).
  { intros r. unfold test_df. rewrite filter_In, Z.leb_le. reflexivity. }
  assert (H1 : Dataset.time_lt (Dataset.time_max (map time_of train_df))
                 (Dataset.time_min (map time_of val_df)) =
               match train_df, val_df with
               | _ :: _, _ :: _ => true
               | _, _ => false
               end).
  { rewrite time_lt_max_min.
    - destruct train_df, val_df; reflexivity.
    - intros x y Hx Hy. apply in_map_iff in Hx, Hy.
      destruct Hx as (rx & <- & Hx). destruct Hy as (ry & <- & Hy).
      apply Htr in Hx. apply Hva in Hy. lia. }
  assert (H2 : Dataset.time_lt (Dataset.time_max (map time_of val_df))
                 (Dataset.time_min (map time_of test_df)) =
               match val_df, test_df with
               | _ :: _, _ :: _ => true
               | _, _ => false
               end).
  { rewrite time_lt_max_min.
    - destruct val_df, test_df; reflexivity.
    - intros x y Hx Hy. apply in_map_iff in Hx, Hy.
      destruct Hx as (rx & <- & Hx). destruct Hy as (ry & <- & Hy).
      apply Hva in Hx. apply Hte in Hy. lia. }
  assert (Heq : Dataset.split_train_val_test time_of df val_start test_start =
                match train_df, val_df, test_df with
                | _ :: _, _ :: _, _ :: _ => Some (train_df, val_df, test_df)
                | _, _, _ => None
                end).
  { unfold Dataset.split_train_val_test.
    fold train_df val_df test_df. rewrite H1, H2.
    destruct train_df, val_df, test_df; reflexivity. }
  split; [exact Heq |].
  intros tr va te Hsome. rewrite Heq in Hsome.
  destruct train_df as [| r1 l1] eqn:E1; [discriminate |].
  destruct val_df as [| r2 l2] eqn:E2; [discriminate |].
  destruct test_df as [| r3 l3] eqn:E3; [discriminate |].
  injection Hsome as <- <- <-.
  assert (Hlt : (val_start < test_start)%Z).
  { destruct (proj1 (Hva r2) (or_introl eq_refl)) as [_ Hr2]. lia. }
  split; [exact Hlt |]. split; [| split; [exact Htr | split; [exact Hva | exact Hte]]].
  rewrite <- E1, <- E2, <- E3. unfold train_df, val_df, test_df.
  apply split_lengths. lia.
Qed.

(** Times 1, 5 and 9 with the dates 3 and 7: one row per frame. *)
Lemma X12_time_split_witness :
  (3 < 7)%Z /\ (1 + 1 + 1 = 3)%nat.
Proof.
  destruct (proj2 (X12_time_split (fun z : Z => z) [1; 5; 9]%Z 3 7)
              [1]%Z [5]%Z [9]%Z eq_refl) as (H1 & H2 & _).
  split; [exact H1 | exact H2].
Defined.

(** ** The trading loop of [backtest.py] *)

Section BacktestFacts.

Context {T : Type} {N : Num T} {NN : NumNeg T}.
Local Open Scope num_scope.

Variables confidence_threshold risk_per_trade : T.

(** The loop only appends to the trades and to the equity curve it is
    given. *)
Lemma trade_loop_app (rows : list (Backtest.Row * T)) :
  forall (equity : T) (trades : list (Backtest.Trade T)) (curve : list T),
    Backtest.trade_loop confidence_threshold risk_per_trade rows equity
      trades curve =
    (trades ++ fst (Backtest.trade_loop confidence_threshold risk_per_trade
                      rows equity [] []),
     curve ++ snd (Backtest.trade_loop confidence_threshold risk_per_trade
                     rows equity [] [])).
Proof.
  induction rows as [| [row prob] rest IH]; intros equity trades curve.
  - simpl. rewrite !app_nil_r. reflexivity.
  - simpl.
    destruct (Backtest.signal_of prob confidence_threshold =? 0)%Z.
    + rewrite (IH equity trades (curve ++ [equity])).
      rewrite (IH equity [] [equity]). simpl.
      rewrite <- app_assoc. reflexivity.
    + match goal with
      | |- Backtest.trade_loop _ _ _ ?e (_ ++ [?tr]) _ = _ =>
          rewrite (IH e (trades ++ [tr]) (curve ++ [e]));
          rewrite (IH e [tr] [e])
      end.
      simpl. rewrite <- !app_assoc. reflexivity.
Qed.

(** One turn of the loop, started from empty accumulators. *)
Lemma trade_loop_cons (row : Backtest.Row) (prob : T)
    (rest : list (Backtest.Row * T)) (equity : T) :
  Backtest.trade_loop confidence_threshold risk_per_trade
    ((row, prob) :: rest) equity [] [] =
  let signal := Backtest.signal_of prob confidence_threshold in
  if (signal =? 0)%Z
  then
    let r := Backtest.trade_loop confidence_threshold risk_per_trade rest
               equity [] [] in
    (fst r, equity :: snd r)
  else
    let win := if (signal =? 1)%Z then (Backtest.label row =? 1)%Z
               else (Backtest.label row =? -1)%Z in
    let risk_amount := equity * risk_per_trade in
    let pnl := if win then risk_amount * lit 1.8 else fneg risk_amount in
    let equity' := equity + pnl in
    let r := Backtest.trade_loop confidence_threshold risk_per_trade rest
               equity' [] [] in
    (Backtest.mkTrade (Backtest.time row) (Backtest.symbol row)
       (if (signal =? 1)%Z then LONG else SHORT)
       prob (Backtest.label row) win risk_amount pnl equity' :: fst r,
     equity' :: snd r).
Proof.
  simpl.
  destruct (Backtest.signal_of prob confidence_threshold =? 0)%Z;
    rewrite trade_loop_app; reflexivity.
Qed.

Lemma signal_of_values (prob : T) :
  Backtest.signal_of prob confidence_threshold = 0%Z \/
  Backtest.signal_of prob confidence_threshold = 1%Z \/
  Backtest.signal_of prob confidence_threshold = (-1)%Z.
Proof.
  unfold Backtest.signal_of.
  destruct (prob <=? of_int 1 - confidence_threshold); auto.
  destruct (prob >=? confidence_threshold); auto.
Qed.

Lemma loop_curve_length (rows : list (Backtest.Row * T)) (equity : T) :
  List.length (snd (Backtest.trade_loop confidence_threshold risk_per_trade
                      rows equity [] [])) = List.length rows.
Proof.
  revert equity. induction rows as [| [row prob] rest IH]; intros equity;
    [reflexivity |].
  rewrite trade_loop_cons. cbv zeta.
  destruct (Backtest.signal_of prob confidence_threshold =? 0)%Z; simpl;
    rewrite IH; reflexivity.
Qed.

Lemma loop_trades_length (rows : list (Backtest.Row * T)) (equity : T) :
  List.length (fst (Backtest.trade_loop confidence_threshold risk_per_trade
                      rows equity [] [])) =
  List.length
    (filter (fun rp => negb (Backtest.signal_of (snd rp) confidence_threshold
                             =? 0)%Z) rows).
Proof.
  revert equity. induction rows as [| [row prob] rest IH]; intros equity;
    [reflexivity |].
  rewrite trade_loop_cons. cbv zeta. simpl filter.
  destruct (Backtest.signal_of prob confidence_threshold =? 0)%Z; simpl;
    rewrite IH; reflexivity.
Qed.

Lemma last_default_irrelevant {A : Type} (l : list A) (d d' : A) :
  l <> [] -> last l d = last l d'.
Proof.
  induction l as [| x l IH]; [congruence |]. intros _.
  destruct l as [| y l]; [reflexivity |].
  change (last (y :: l) d = last (y :: l) d'). apply IH. discriminate.
Qed.

Lemma last_cons {A : Type} (x d : A) (l : list A) :
  last (x :: l) d = last l x.
Proof.
  destruct l as [| y l]; [reflexivity |].
  change (last (y :: l) d = last (y :: l) x).
  apply last_default_irrelevant. discriminate.
Qed.

End BacktestFacts.

Section BacktestLoop.

Context {T : Type} {N : Num T} {NN : NumNeg T}.
Local Open Scope num_scope.

Variables confidence_threshold risk_per_trade : T.

Lemma loop_last (rows : list (Backtest.Row * T)) :
  forall equity d,
    last (equity :: snd (Backtest.trade_loop confidence_threshold
                           risk_per_trade rows equity [] [])) d =
    last (map Backtest.t_equity
            (fst (Backtest.trade_loop confidence_threshold risk_per_trade
                    rows equity [] []))) equity.
Proof.
  induction rows as [| [row prob] rest IH]; intros equity d; [reflexivity |].
  rewrite trade_loop_cons. cbv zeta.
  destruct (Backtest.signal_of prob confidence_threshold =? 0)%Z;
    cbn [fst snd map Backtest.t_equity].
  - etransitivity; [apply last_cons |]. apply IH.
  - etransitivity; [apply last_cons |].
    etransitivity; [apply IH |]. symmetry. apply last_cons.
Qed.

Lemma loop_no_trade (rows : list (Backtest.Row * T)) (equity : T) :
  (forall rp, In rp rows ->
     Backtest.signal_of (snd rp) confidence_threshold = 0%Z) ->
  Backtest.trade_loop confidence_threshold risk_per_trade rows equity [] [] =
  ([], repeat equity (List.length rows)).
Proof.
  induction rows as [| [row prob] rest IH]; intros Hzero; [reflexivity |].
  rewrite trade_loop_cons. cbv zeta.
  pose proof (Hzero (row, prob) (or_introl eq_refl)) as H0.
  cbn [snd] in H0. rewrite H0. simpl.
  rewrite IH; [reflexivity |]. intros rp Hrp. apply Hzero. right. exact Hrp.
Qed.

(** What each trade of the loop records. *)
Lemma loop_trades (rows : list (Backtest.Row * T)) :
  forall equity,
    let trades := fst (Backtest.trade_loop confidence_threshold
                         risk_per_trade rows equity [] []) in
    Forall (fun tr =>
      (exists row, In (row, Backtest.t_prob tr) rows /\
                   Backtest.label row = Backtest.t_label tr /\
                   Backtest.time row = Backtest.t_time tr) /\
      (Backtest.t_signal tr = LONG \/ Backtest.t_signal tr = SHORT) /\
      Backtest.signal_of (Backtest.t_prob tr) confidence_threshold =
        BacktestView.direction_code (Backtest.t_signal tr) /\
      Backtest.t_win tr =
        match Backtest.t_signal tr with
        | LONG => (Backtest.t_label tr =? 1)%Z
        | _ => (Backtest.t_label tr =? -1)%Z
        end /\
      Backtest.t_pnl tr =
        (if Backtest.t_win tr then Backtest.t_risk tr * lit 1.8
         else fneg (Backtest.t_risk tr))) trades /\
    BacktestView.compounds risk_per_trade equity trades.
Proof.
  induction rows as [| [row prob] rest IH]; intros equity.
  - simpl. split; [constructor | exact I].
  - cbv zeta. rewrite trade_loop_cons. cbv zeta.
    destruct (Backtest.signal_of prob confidence_threshold =? 0)%Z eqn:E0.
    + destruct (IH equity) as [H1 H2]. cbn [fst]. split; [| exact H2].
      eapply Forall_impl; [| exact H1]. cbv beta.
      intros tr ((r & Hr & Hrest) & Hother). split; [| exact Hother].
      exists r. split; [right; exact Hr | exact Hrest].
    + cbn [fst].
      match goal with
      | |- Forall _ (?tr :: fst (Backtest.trade_loop _ _ _ ?e _ _)) /\ _ =>
          destruct (IH e) as [H1 H2]
      end.
      split.
      * constructor.
        -- cbn [Backtest.t_prob Backtest.t_label Backtest.t_time
                Backtest.t_signal Backtest.t_win Backtest.t_pnl
                Backtest.t_risk].
           split; [exists row; split; [left; reflexivity | split; reflexivity] |].
           apply Z.eqb_neq in E0.
           destruct (signal_of_values confidence_threshold prob)
             as [E | [E | E]]; [congruence | |]; rewrite E; simpl;
             repeat split; auto.
        -- eapply Forall_impl; [| exact H1]. cbv beta.
           intros tr ((r & Hr & Hrest) & Hother). split; [| exact Hother].
           exists r. split; [right; exact Hr | exact Hrest].
      * simpl. split; [reflexivity |]. split; [reflexivity | exact H2].
Qed.

End BacktestLoop.

(** X8.  The equity curve of [run_backtest] starts at the initial
    capital and has one more entry than the frame has rows; the number
    of trades is the number of rows with a non-zero signal; the last
    entry of the curve is the equity of the last trade, or the initial
    capital when no trade was taken; and when no row signals, there is
    no trade and the curve stays at the initial capital. *)
Theorem X8_equity_curve {T : Type} {N : Num T} {NN : NumNeg T}
    (rows : list (Backtest.Row * T)) (t risk initial_capital : T) :
  let trades := fst (Backtest.run_backtest rows t risk initial_capital) in
  let equity_curve := snd (Backtest.run_backtest rows t risk initial_capital) in
  List.length equity_curve = S (List.length rows) /\
  hd_error equity_curve = Some initial_capital /\
  List.length trades =
    List.length (filter (fun rp => negb (Backtest.signal_of (snd rp) t =? 0)%Z)
                   rows) /\
  (List.length trades <= List.length rows)%nat /\
  last equity_curve initial_capital =
    last (map Backtest.t_equity trades) initial_capital /\
  ((forall rp, In rp rows -> Backtest.signal_of (snd rp) t = 0%Z) ->
   trades = [] /\
   equity_curve = repeat initial_capital (S (List.length rows))).
Proof.
  intros trades equity_curve. unfold trades, equity_curve, Backtest.run_backtest.
  rewrite trade_loop_app. cbn [fst snd app].
  split; [simpl; rewrite loop_curve_length; reflexivity |].
  split; [reflexivity |].
  split; [apply loop_trades_length |].
  split; [rewrite loop_trades_length; apply filter_length_le |].
  split; [apply loop_last |].
  intros Hzero. rewrite (loop_no_trade t risk rows initial_capital Hzero).
  split; reflexivity.
Qed.

(** Probabilities 0.5 and 0.6 against the threshold 0.7: no trade, the
    curve stays at 10000. *)
Lemma X8_equity_curve_witness :
  snd (Backtest.run_backtest (T := float)
         [(Backtest.mkRow 0 "EURUSD" 1, lit 0.5);
          (Backtest.mkRow 1 "EURUSD" (-1), lit 0.6)]
         (lit 0.7) (lit 0.01) (lit 10000))
  = repeat (lit 10000) 3.
Proof.
  refine (proj2 (proj2 (proj2 (proj2 (proj2 (proj2
            (X8_equity_curve (T := float)
               [(Backtest.mkRow 0 "EURUSD" 1, lit 0.5);
                (Backtest.mkRow 1 "EURUSD" (-1), lit 0.6)]
               (lit 0.7) (lit 0.01) (lit 10000)))))) _)).
  intros rp [<- | [<- | []]]; vm_compute; reflexivity.
Defined.

(** X10.  Every trade of [run_backtest] is LONG or SHORT as the signal
    of its row says; a LONG trade wins exactly on label 1 and a SHORT
    trade exactly on label -1, so a trade on a neutral row (label 0) is
    a loss; its profit is 1.8 times the amount risked when it wins and
    minus the amount risked otherwise; and the trades compound: each
    risks [risk_per_trade] of the equity the trade before it left. *)
Theorem X10_trades {T : Type} {N : Num T} {NN : NumNeg T}
    (rows : list (Backtest.Row * T)) (t risk initial_capital : T) :
  let trades := fst (Backtest.run_backtest rows t risk initial_capital) in
  Forall (fun tr =>
    (exists row, In (row, Backtest.t_prob tr) rows /\
                 Backtest.label row = Backtest.t_label tr /\
                 Backtest.time row = Backtest.t_time tr) /\
    (Backtest.t_signal tr = LONG \/ Backtest.t_signal tr = SHORT) /\
    Backtest.signal_of (Backtest.t_prob tr) t =
      BacktestView.direction_code (Backtest.t_signal tr) /\
    Backtest.t_win tr =
      match Backtest.t_signal tr with
      | LONG => (Backtest.t_label tr =? 1)%Z
      | _ => (Backtest.t_label tr =? -1)%Z
      end /\
    (Backtest.t_label tr = 0%Z -> Backtest.t_win tr = false) /\
    Backtest.t_pnl tr =
      (if Backtest.t_win tr then Backtest.t_risk tr * lit 1.8
       else fneg (Backtest.t_risk tr))%num) trades /\
  BacktestView.compounds risk initial_capital trades.
Proof.
  intros trades. unfold trades, Backtest.run_backtest.
  rewrite trade_loop_app. cbn [fst app].
  destruct (loop_trades t risk rows initial_capital) as [H1 H2].
  split; [| exact H2].
  eapply Forall_impl; [| exact H1]. cbv beta.
  intros tr (Hrow & Hdir & Hsig & Hwin & Hpnl).
  repeat split; try assumption.
  intros E. rewrite Hwin, E. destruct (Backtest.t_signal tr); reflexivity.
Qed.

(** A LONG trade on a neutral row: recorded as a loss of the amount
    risked. *)
Lemma X10_trades_witness :
  map (fun tr => (Backtest.t_signal tr, Backtest.t_win tr))
    (fst (Backtest.run_backtest (T := float)
            [(Backtest.mkRow 0 "EURUSD" 0, lit 0.9)]
            (lit 0.7) (lit 0.01) (lit 10000)))
  = [(LONG, false)] /\
  BacktestView.compounds (T := float) (lit 0.01) (lit 10000)
    (fst (Backtest.run_backtest (T := float)
            [(Backtest.mkRow 0 "EURUSD" 0, lit 0.9)]
            (lit 0.7) (lit 0.01) (lit 10000))).
Proof.
  split; [vm_compute; reflexivity |].
  exact (proj2 (X10_trades (T := float) [(Backtest.mkRow 0 "EURUSD" 0, lit 0.9)]
                  (lit 0.7) (lit 0.01) (lit 10000))).
Defined.

(** X15.  The backtest and the signal engine read a probability the
    same way unless it satisfies both conditions at once: then the
    backtest's second assignment makes the trade SHORT while
    [generate_signals] emits LONG.  In binary64 this cannot happen for a
    threshold above 0.5. *)
Theorem X15_backtest_signal_vs_engine :
  (forall (T : Type) (N : Num T) (p t : T),
     ((p >=? t)%num = true -> (p <=? of_int 1 - t)%num = true ->
        Backtest.signal_of p t = (-1)%Z /\ fst (decide p t) = LONG) /\
     (((p >=? t)%num && (p <=? of_int 1 - t)%num) = false ->
        Backtest.signal_of p t =
        BacktestView.direction_code (fst (decide p t)))) /\
  (forall p t : float,
     (t >? lit 0.5)%num = true ->
     Backtest.signal_of p t = BacktestView.direction_code (fst (decide p t))).
Proof.
  assert (G : forall (T : Type) (N : Num T) (p t : T),
     ((p >=? t)%num = true -> (p <=? of_int 1 - t)%num = true ->
        Backtest.signal_of p t = (-1)%Z /\ fst (decide p t) = LONG) /\
     (((p >=? t)%num && (p <=? of_int 1 - t)%num) = false ->
        Backtest.signal_of p t =
        BacktestView.direction_code (fst (decide p t)))).
  { intros T N p t. unfold Backtest.signal_of, decide. split.
    - intros H1 H2. rewrite H1, H2. split; reflexivity.
    - destruct (p >=? t)%num, (p <=? of_int 1 - t)%num; simpl;
        try discriminate; reflexivity. }
  split; [exact G |].
  intros p t Ht. apply (proj2 (G float float_Num p t)).
  apply andb_false_iff.
  destruct (p >=? t)%num eqn:E1; [| left; reflexivity]. right.
  apply not_true_is_false. intros E2.
  change (PrimFloat.ltb (F64.lit 0.5) t = true) in Ht.
  change (PrimFloat.leb t p = true) in E1.
  change (PrimFloat.leb p (PrimFloat.sub (F64.of_int 1) t) = true) in E2.
  pose proof (sub_one_le_half t Ht) as H3.
  pose proof (leb_trans _ _ _ (leb_trans _ _ _ E1 E2) H3) as H4.
  rewrite (ltb_not_leb _ _ Ht) in H4. discriminate H4.
Qed.

(** Threshold 0.5 and probability 0.5 in binary64: SHORT in the
    backtest, LONG in the signal engine. *)
Lemma X15_backtest_signal_vs_engine_witness :
  Backtest.signal_of (T := float) (lit 0.5) (lit 0.5) = (-1)%Z /\
  fst (decide (T := float) (lit 0.5) (lit 0.5)) = LONG.
Proof.
  refine (proj1 (proj1 X15_backtest_signal_vs_engine float float_Num
                   (lit 0.5) (lit 0.5)) _ _);
    vm_compute; reflexivity.
Defined.
